(** * jbg-api-util: the dispatch engine

    A shallow embedding of [lib/client.js] (the caller-side resolver) and of
    the router class [Server] (the server-side request router), and the
    properties of the dispatch engine proved over it.

    Conventions of the embedding.
    - JavaScript values are the data values [Js.value]: no value is a
      function.  An object is the finite map of its own properties, with
      [Object.prototype] behind it ([Js.VObj]) or with no prototype
      ([Js.VBare]).
    - The objects the two classes use as maps ([endpoints],
      [endpointInstances]) are ordinary objects: a read under a key they
      do not own goes on to [Object.prototype] and finds its members
      there ([Js.read]).
    - A statement that can throw returns a [Js.completion]; code that also
      mutates an object is a function from the state of that object to a
      completion and the new state ([Js.M]).
    - What the sources only call is a parameter of the model: the HTTP
      client transport, the handler classes of the embedding application,
      and Express with its request and response objects ([Express]).  A
      handler keeps its contract: a verb method returns a promise, which
      settles, and how it settles is a function of the arguments of the
      method. *)

From Stdlib Require Import ZArith Recdef Ascii String.
From stdpp Require Import gmap strings list fin_maps.

#[local] Set Warnings "-register-all".

(** ** JavaScript values and control *)

Module Js.

(** Data values.  Numbers are the integers among the JavaScript numbers;
    [VError] is an [Error] object as the engine or the platform throws
    it, with its [message]; [VObj] is an ordinary object, whose prototype
    is [Object.prototype] (an object literal, what [JSON.parse] makes);
    [VBare] is an object without a prototype ([Object.create(null)]). *)
Inductive value : Type :=
| VUndefined
| VNull
| VBool (b : bool)
| VNum (n : Z)
| VStr (s : string)
| VError (message : string)
| VObj (props : gmap string value)
| VBare (props : gmap string value).

(** [ToBoolean]: what [if (v)], [!v], [v || d] and [v ? a : b] test. *)
Definition truthy (v : value) : bool :=
  match v with
  | VUndefined | VNull => false
  | VBool b => b
  | VNum n => negb (n =? 0)%Z
  | VStr s => negb (String.eqb s "")
  | VError _ | VObj _ | VBare _ => true
  end.

(** The outcome of running a statement: it completes, or it throws. *)
Inductive completion (A : Type) : Type :=
| Normal (a : A)
| Throw (e : value).
Arguments Normal {A} a.
Arguments Throw {A} e.

Definition TypeError (message : string) : value := VError message.
Definition RangeError (message : string) : value := VError message.

(** The names of the members of [Object.prototype]: every ordinary
    object inherits them.  Eleven are functions; [__proto__] yields the
    prototype itself.  All of them are truthy. *)
Definition prototypeNames : list string :=
  ["constructor"; "hasOwnProperty"; "isPrototypeOf"; "propertyIsEnumerable";
   "toLocaleString"; "toString"; "valueOf"; "__proto__";
   "__defineGetter__"; "__defineSetter__"; "__lookupGetter__"; "__lookupSetter__"].

Definition protoMember (k : string) : bool := bool_decide (k ∈ prototypeNames).

(** What [o[k]] finds in an ordinary object [o]: an own property, or the
    member of [Object.prototype] of that name. *)
Inductive member (A : Type) : Type :=
| Own (a : A)
| Inherited (name : string).
Arguments Own {A} a.
Arguments Inherited {A} name.

(** [o[k]] for an ordinary object [o] with the own properties [own]:
    the own property first, then the prototype; [None] is [undefined]. *)
Definition read {A} (own : gmap string A) (k : string) : option (member A) :=
  match own !! k with
  | Some a => Some (Own a)
  | None => if protoMember k then Some (Inherited k) else None
  end.

(** [v[k]], [v.k] at the names the sources read from a value ([data],
    [status], [message], [_raw], [_redirect]), none of which is a member
    of a prototype: reading a property of [undefined] or [null] throws;
    an object yields its own property or [undefined]; an [Error] has its
    [message]; the other primitives have none of these names. *)
Definition get (v : value) (k : string) : completion value :=
  match v with
  | VUndefined => Throw (TypeError "Cannot read properties of undefined")
  | VNull => Throw (TypeError "Cannot read properties of null")
  | VObj props | VBare props => Normal (default VUndefined (props !! k))
  | VError m => Normal (if String.eqb k "message" then VStr m else VUndefined)
  | VBool _ | VNum _ | VStr _ => Normal VUndefined
  end.

(** [v.hasOwnProperty(k)], a method call, at the names the router probes
    ([_raw], [_redirect], [data]).  The method is itself read from [v]:
    the read throws on [undefined] and [null]; an ordinary object that
    has an own property named [hasOwnProperty] yields that data value
    (which shadows the inherited method), and an object without prototype
    yields [undefined]: calling either throws.  Everything else reaches
    [Object.prototype.hasOwnProperty]. *)
Definition hasOwnProperty (v : value) (k : string) : completion bool :=
  match v with
  | VUndefined => Throw (TypeError "Cannot read properties of undefined")
  | VNull => Throw (TypeError "Cannot read properties of null")
  | VObj props =>
      match props !! "hasOwnProperty" with
      | Some _ => Throw (TypeError "hasOwnProperty is not a function")
      | None => Normal (bool_decide (is_Some (props !! k)))
      end
  | VBare _ => Throw (TypeError "hasOwnProperty is not a function")
  | VError _ => Normal (String.eqb k "message")
  | VBool _ | VNum _ | VStr _ => Normal false
  end.

(** Code that mutates an object of state [S] and may throw; the state
    reached is kept when it throws. *)
Definition M (S A : Type) : Type := S → completion A * S.

Definition ret {S A} (a : A) : M S A := λ s, (Normal a, s).
Definition throw {S A} (e : value) : M S A := λ s, (Throw e, s).
Definition bind {S A B} (m : M S A) (k : A → M S B) : M S B :=
  λ s, match m s with
       | (Normal a, s') => k a s'
       | (Throw e, s') => (Throw e, s')
       end.
Definition lift {S A} (c : completion A) : M S A := λ s, (c, s).
Definition modify {S} (f : S → S) : M S () := λ s, (Normal (), f s).
Definition gets {S A} (f : S → A) : M S A := λ s, (Normal (f s), s).

(** [try { m } catch (e) { h e }] *)
Definition catch {S A} (m : M S A) (h : value → M S A) : M S A :=
  λ s, match m s with
       | (Normal a, s') => (Normal a, s')
       | (Throw e, s') => h e s'
       end.

(** Running code on one component of a larger state. *)
Definition zoom {S T A} (proj : T → S) (upd : S → T → T) (m : M S A) : M T A :=
  λ t, let '(c, s') := m (proj t) in (c, upd s' t).

End Js.

Import Js.

#[export] Instance M_ret {S} : MRet (M S) := λ A, @Js.ret S A.
#[export] Instance M_bind {S} : MBind (M S) := λ A B k m, @Js.bind S A B m k.

(** ** Express: the request and the response sink *)

Module Express.

(** Whether [n] is a status code: an integer from 100 to 999. *)
Definition isStatusCode (n : Z) : bool := bool_decide (100 ≤ n ≤ 999)%Z.

(** The platform under the router, of which the model keeps how a
    response takes a status: [takesStatus code] tells whether
    [res.status(code).json(body)] goes through.  Express 5 checks the
    code in [res.status] and throws unless it is an integer from 100 to
    999; under Express 4 [res.status] stores what it is given and Node
    throws when [res.json] writes the head, unless the code, coerced to
    a 32-bit integer, lies in that range.  What the versions agree on
    are the laws: an integer from 100 to 999 is taken, any other 32-bit
    integer is not, and neither is anything but a number or a string. *)
Record application : Type := {
  takesStatus : value → bool;
  takesStatus_code : ∀ n : Z, isStatusCode n = true → takesStatus (VNum n) = true;
  takesStatus_int32 : ∀ n : Z,
    (- 2 ^ 31 ≤ n < 2 ^ 31)%Z → takesStatus (VNum n) = true → isStatusCode n = true;
  takesStatus_data : ∀ v, takesStatus v = true → (∃ n, v = VNum n) ∨ (∃ s, v = VStr s)
}.

(** Express 5: [res.status] takes the integers from 100 to 999. *)
Definition strictStatus (code : value) : bool :=
  match code with
  | VNum n => isStatusCode n
  | _ => false
  end.

Lemma strictStatus_code (n : Z) : isStatusCode n = true → strictStatus (VNum n) = true.
Proof. intros Hn. exact Hn. Qed.

Lemma strictStatus_int32 (n : Z) :
  (- 2 ^ 31 ≤ n < 2 ^ 31)%Z → strictStatus (VNum n) = true → isStatusCode n = true.
Proof. intros _ Hn. exact Hn. Qed.

Lemma strictStatus_data v :
  strictStatus v = true → (∃ n, v = VNum n) ∨ (∃ s, v = VStr s).
Proof. destruct v; try discriminate. intros _. left. eexists. reflexivity. Qed.

Definition express5 : application :=
  {| takesStatus := strictStatus;
     takesStatus_code := strictStatus_code;
     takesStatus_int32 := strictStatus_int32;
     takesStatus_data := strictStatus_data |}.

(** [n | 0] for an integer [n]: its value as a 32-bit integer. *)
Definition toInt32 (n : Z) : Z := ((n + 2 ^ 31) mod 2 ^ 32 - 2 ^ 31)%Z.

(** Express 4 on Node: the head is written under [code | 0], a number
    wrapped to 32 bits or a string converted to a number first;
    [numeric] is that conversion of a string, as a 32-bit integer. *)
Definition coercedStatus (numeric : string → Z) (code : value) : bool :=
  match code with
  | VNum n => isStatusCode (toInt32 n)
  | VStr s => isStatusCode (numeric s)
  | _ => false
  end.

Lemma toInt32_int32 (n : Z) : (- 2 ^ 31 ≤ n < 2 ^ 31)%Z → toInt32 n = n.
Proof.
  intros Hn. unfold toInt32. rewrite Z.mod_small; lia.
Qed.

Lemma coercedStatus_code numeric (n : Z) :
  isStatusCode n = true → coercedStatus numeric (VNum n) = true.
Proof.
  intros Hn. simpl. rewrite toInt32_int32; [exact Hn|].
  apply bool_decide_eq_true in Hn. lia.
Qed.

Lemma coercedStatus_int32 numeric (n : Z) :
  (- 2 ^ 31 ≤ n < 2 ^ 31)%Z → coercedStatus numeric (VNum n) = true → isStatusCode n = true.
Proof. intros Hn. simpl. rewrite toInt32_int32 by exact Hn. done. Qed.

Lemma coercedStatus_data numeric v :
  coercedStatus numeric v = true → (∃ n, v = VNum n) ∨ (∃ s, v = VStr s).
Proof. destruct v; try discriminate; intros _; [left|right]; eexists; reflexivity. Qed.

Definition express4 (numeric : string → Z) : application :=
  {| takesStatus := coercedStatus numeric;
     takesStatus_code := coercedStatus_code numeric;
     takesStatus_int32 := coercedStatus_int32 numeric;
     takesStatus_data := coercedStatus_data numeric |}.

(** A call the router makes on the response object [res] that goes
    through. *)
Inductive resCall : Type :=
| ResStatus (code : value)      (* res.status(code) *)
| ResJson (body : value)        (* res.json(body) *)
| ResRedirect (url : value)     (* res.redirect(url) *)
| ResEnd.                       (* res.end() *)

(** The response object: the calls that went through, oldest first. *)
Definition response : Type := list resCall.

(** [res.status(code)], on whose result the router calls [json] at
    once.  A code the platform does not take makes that chain throw with
    nothing written; the model lets it throw here, where Express 5
    does. *)
Definition status (app : application) (code : value) : M response () :=
  if takesStatus app code then modify (λ r, r ++ [ResStatus code])
  else throw (RangeError "Invalid status code").
Definition json (body : value) : M response () := modify (λ r, r ++ [ResJson body]).
Definition redirect (url : value) : M response () := modify (λ r, r ++ [ResRedirect url]).
Definition end_ : M response () := modify (λ r, r ++ [ResEnd]).

(** What the router has Express send: a JSON body under the status code
    in force, or a redirect. *)
Inductive httpResponse : Type :=
| HttpJson (statusCode : value) (body : value)
| HttpRedirect (url : value).

Fixpoint wire (statusCode : value) (calls : list resCall) : list httpResponse :=
  match calls with
  | [] => []
  | ResStatus c :: rest => wire c rest
  | ResJson b :: rest => HttpJson statusCode b :: wire statusCode rest
  | ResRedirect u :: rest => HttpRedirect u :: wire statusCode rest
  | ResEnd :: rest => wire statusCode rest
  end.

(** A fresh response object has [statusCode] 200. *)
Definition sent (r : response) : list httpResponse := wire (VNum 200) r.

(** The inbound request, as the body and query parsers leave it. *)
Record request : Type := {
  originalUrl : string;
  baseUrl : string;
  body : gmap string value;            (* req.body, an object *)
  query : gmap string value;           (* req.query *)
  rawBody : option string;             (* req.rawBody, set by rawBodySaver *)
  header : string → option string      (* req.header(name) *)
}.

End Express.

Import Express.

(** ** Strings: the operations of the sources on [String] *)

Module Str.

(** [s.split(sep)] for a one-character separator: the segments between
    the occurrences of [sep]; never empty ([''.split('/')] is [['']]). *)
Fixpoint split (sep : ascii) (s : string) : list string :=
  match s with
  | EmptyString => [EmptyString]
  | String c rest =>
      if Ascii.eqb c sep then EmptyString :: split sep rest
      else match split sep rest with
           | [] => [String c EmptyString]
           | seg :: segs => String c seg :: segs
           end
  end.

(** [segments.join(sep)] *)
Definition join (sep : ascii) (segments : list string) : string :=
  String.concat (String sep EmptyString) segments.

(** [s.indexOf(p) == 0] *)
Definition startsWith (p s : string) : bool := String.prefix p s.

(** The rest of [s] behind a leading [p], when [s] starts with [p]. *)
Fixpoint stripPrefix (p s : string) : option string :=
  match p, s with
  | EmptyString, _ => Some s
  | String a p', String b s' => if Ascii.eqb a b then stripPrefix p' s' else None
  | String _ _, EmptyString => None
  end.

(** The rest of [s] behind the first (leftmost) occurrence of [p]. *)
Fixpoint afterFirst (p s : string) : option string :=
  match stripPrefix p s with
  | Some rest => Some rest
  | None => match s with
            | EmptyString => None
            | String _ s' => afterFirst p s'
            end
  end.

(** The longest prefix of [s] without the character [stop]: [[^stop]*]. *)
Fixpoint upTo (stop : ascii) (s : string) : string :=
  match s with
  | EmptyString => EmptyString
  | String c rest => if Ascii.eqb c stop then EmptyString else String c (upTo stop rest)
  end.

(** The class [\s] on the code units below 256: tab, line feed, vertical
    tab, form feed, carriage return, space and no-break space. *)
Definition isSpace (c : ascii) : bool :=
  let n := nat_of_ascii c in
  ((9 <=? n) && (n <=? 13)) || (n =? 32) || (n =? 160).

(** [s.split(/\s/)]: a cut at every white-space character. *)
Fixpoint splitSpace (s : string) : list string :=
  match s with
  | EmptyString => [EmptyString]
  | String c rest =>
      if isSpace c then EmptyString :: splitSpace rest
      else match splitSpace rest with
           | [] => [String c EmptyString]
           | seg :: segs => String c seg :: segs
           end
  end.

(** A string as a condition: the empty string is falsy. *)
Definition nonEmpty (s : string) : bool := negb (String.eqb s "").

End Str.

(** ** The Endpoint Registry and the handlers it names *)

Module Registry.

(** How the promise a handler method returns settles. *)
Inductive handlerResult : Type :=
| Resolves (result : value)
| Rejects (e : value).

(** The second argument the router passes: [{originalUrl, baseUrl}]. *)
Record requestMeta : Type := {
  meta_originalUrl : string;
  meta_baseUrl : string
}.

(** A verb method of a handler, as a function of its arguments; the
    caller-side resolver passes no second argument. *)
Definition handlerMethod : Type := value → option requestMeta → handlerResult.

(** A handler class of the embedding application: [verbs m] is the
    method [m] the class gives its instances, [None] when it gives
    none. *)
Record handlerClass : Type := {
  verbs : string → option handlerMethod
}.

(** A value of the [endpoints] object: a string (the URL of a remote
    endpoint) or a class (a local endpoint). *)
Inductive descriptor : Type :=
| Remote (url : string)
| Local (cls : handlerClass).

(** The four verbs the router has routes for. *)
Inductive verb : Type := Get | Post | Put | Delete.

(** The name of a verb, under which a handler has its method. *)
Definition verbName (method : verb) : string :=
  match method with
  | Get => "get"
  | Post => "post"
  | Put => "put"
  | Delete => "delete"
  end.

(** [if (endpoints[key])] on what the read found: [undefined] is falsy,
    a URL is truthy unless empty, a class is truthy, and so is every
    member of [Object.prototype]. *)
Definition present (d : option (member descriptor)) : bool :=
  match d with
  | None => false
  | Some (Own (Remote url)) => Str.nonEmpty url
  | Some (Own (Local _)) => true
  | Some (Inherited _) => true
  end.

(** An object made by [new cls(...)]: [inst_id] is its identity, the
    number of instances its owner had made before it. *)
Record instance : Type := {
  inst_id : nat;
  inst_class : handlerClass;
  inst_log : option value
}.

(** [endpointInstances], with the record of the [new] its owner ran:
    the key in force and the identity of the instance made. *)
Record cache : Type := {
  endpointInstances : gmap string instance;
  constructed : list (string * nat)
}.

(** [this.endpointInstances = {}] *)
Definition emptyCache : cache := {| endpointInstances := ∅; constructed := [] |}.

(** An object without a handler method. *)
Definition plainObject : handlerClass := {| verbs := λ _, None |}.

(** [new d(config)] on what a read of [endpoints] found.  A class makes
    an instance; a string and [undefined] are no constructors.  Of the
    members of [Object.prototype] only [constructor], which is [Object],
    is one: [new Object(config)] gives [config] back, an object without
    a handler method; no path through [getEndpoint] or [call] reaches
    [new] with an inherited member (see [getEndpoint], [callLocal]). *)
Definition construct (d : option (member descriptor)) (c : cache) : completion instance :=
  match d with
  | Some (Own (Local cls)) =>
      Normal {| inst_id := length (constructed c); inst_class := cls; inst_log := None |}
  | Some (Own (Remote _)) => Throw (TypeError "string is not a constructor")
  | Some (Inherited name) =>
      if String.eqb name "constructor"
      then Normal {| inst_id := length (constructed c); inst_class := plainObject;
                     inst_log := None |}
      else Throw (TypeError "endpoint is not a constructor")
  | None => Throw (TypeError "undefined is not a constructor")
  end.

(** [endpoint[method]] for a verb, on what a read of [endpointInstances]
    found: the member of the instance; [Object.prototype] and its
    members have no property named after a verb. *)
Definition methodOf (endpoint : member instance) (method : verb) : option handlerMethod :=
  match endpoint with
  | Own i => verbs (inst_class i) (verbName method)
  | Inherited _ => None
  end.

(** [this.endpointInstances[key] = i], [i] just made by [new]. *)
Definition store (key : string) (i : instance) (c : cache) : cache :=
  {| endpointInstances := <[key := i]> (endpointInstances c);
     constructed := constructed c ++ [(key, inst_id i)] |}.

(** A promise, as its owner finds it settled (or never settled). *)
Inductive promise : Type :=
| Fulfilled (v : value)
| Rejected (e : value)
| Pending.

(** The promise at the end of a chain of callbacks [m]: fulfilled with
    what the last one returns ([undefined] here), rejected with what one
    throws past the last [catch]. *)
Definition chained {S A} (m : M S A) : M S promise :=
  λ s, match m s with
       | (Normal _, s') => (Normal (Fulfilled VUndefined), s')
       | (Throw e, s') => (Normal (Rejected e), s')
       end.

(** [{status: code, message: message}] *)
Definition failure (code : Z) (message : string) : value :=
  VObj (<["status" := VNum code]> (<["message" := VStr message]> ∅)).

End Registry.

Import Registry.

(** ** The router: class [Server] *)

Module Server.

(** The fields of a [Server] that never change after its constructor;
    [endpoints] is an ordinary object, given by its own properties. *)
Record server : Type := {
  app : application;
  endpoints : gmap string descriptor;
  log : value;
  includeRequestId : bool;
  headerParams : list string
}.

(** [require('path').sep], on a POSIX system. *)
Definition path_sep : ascii := "/"%char.

(** What a request mutates: the server's instance cache and the response
    object it was handed. *)
Definition world : Type := cache * response.

Definition onCache {A} (m : M cache A) : M world A :=
  zoom fst (λ c w, (c, w.2)) m.
Definition onRes {A} (m : M response A) : M world A :=
  zoom snd (λ r w, (w.1, r)) m.

(** [respondWithError(res, e)]; the [console.log] is left out. *)
Definition respondWithError (self : server) (e : value) : M response () :=
  code ← lift (get e "status");
  _ ← status (app self) code;
  code ← lift (get e "status");
  message ← lift (get e "message");
  _ ← json (VObj {[ "error" := VObj (<["code" := code]> {[ "message" := message ]}) ]});
  end_.

(** [respondWithSuccess(response, result)] *)
Definition respondWithSuccess (result : value) : M response () :=
  isRaw ← lift (hasOwnProperty result "_raw");
  if (isRaw : bool) then
    out ← lift (get result "_raw");
    json out
  else
    isRedirect ← lift (hasOwnProperty result "_redirect");
    if (isRedirect : bool) then
      url ← lift (get result "_redirect");
      redirect url
    else
      hasData ← lift (hasOwnProperty result "data");
      if (hasData : bool) then json result
      else json (VObj {[ "data" := result ]}).

(** A header as a value: [undefined] when the request has none. *)
Definition headerValue (h : option string) : value :=
  match h with
  | Some s => VStr s
  | None => VUndefined
  end.

(** [authParts[1]] *)
Definition authToken (authorization : string) : value :=
  headerValue (Str.splitSpace authorization !! 1).

(** [extractParams(method, req)].  [params] is [req.body] itself, which
    the function updates in place and returns. *)
Definition extractParams (self : server) (method : verb) (req : request)
  : gmap string value :=
  let params := body req in
  (* for (key in req.query) params[key] = req.query[key] *)
  let params := map_fold (λ key v params, <[key := v]> params) params (query req) in
  let params :=
    match rawBody req with
    | Some raw => if Str.nonEmpty raw then <["_body" := VStr raw]> params else params
    | None => params
    end in
  let params :=
    match header req "Authorization" with
    | Some a =>
        if Str.nonEmpty a && (Str.startsWith "Bearer " a || Str.startsWith "bearer " a)
        then <["_auth_token" := authToken a]> params
        else params
    | None => params
    end in
  let params :=
    match header req "X-Request-ID" with
    | Some id =>
        if includeRequestId self && Str.nonEmpty id
        then <["_request_id" := VStr id]> params
        else params
    | None => params
    end in
  foldl (λ params h, <[h := headerValue (header req h)]> params) params (headerParams self).

(** [getEndpoint(path)].  [endpointInstances] is an ordinary object:
    under a [path] that names a member of [Object.prototype] the read
    finds that member, which is truthy, so that nothing is made and the
    member is what the function returns.  Where the read finds nothing,
    [path] names no such member, so that the assignment makes an own
    property and the last read finds it. *)
Definition getEndpoint (self : server) (path : string) : M cache (member instance) :=
  cached ← gets (λ c, read (endpointInstances c) path);
  match cached with
  | Some endpoint => mret endpoint
  | None =>
      c ← gets id;
      i ← lift (construct (read (endpoints self) path) c);
      _ ← modify (store path i);
      let i := {| inst_id := inst_id i; inst_class := inst_class i;
                  inst_log := Some (log self) |} in
      _ ← modify (λ c, {| endpointInstances := <[path := i]> (endpointInstances c);
                          constructed := constructed c |});
      mret (Own i)
  end.

(** [processEndpoint(path, method, req, res)].  The result is the promise
    it returns, [None] where it returns what [respondWithError] does;
    the callbacks on the handler's promise run once that has settled. *)
Definition processEndpoint (self : server) (path : string) (method : verb) (req : request)
  : M world (option promise) :=
  endpoint ← onCache (getEndpoint self path);
  match methodOf endpoint method with
  | None =>
      _ ← onRes (respondWithError self (failure 405 "method not available"));
      mret None
  | Some handle =>
      let meta := {| meta_originalUrl := originalUrl req; meta_baseUrl := baseUrl req |} in
      p ← chained
           match handle (VObj (extractParams self method req)) (Some meta) with
           | Resolves result =>
               catch (onRes (respondWithSuccess result))
                     (λ e, onRes (respondWithError self e))
           | Rejects e => onRes (respondWithError self e)
           end;
      mret (Some p)
  end.

(** [req.originalUrl.match(...)] with the pattern of [processMethod]:
    the literal [/api/], then a group capturing every character up to
    the first question mark.  The result is the capture group at the
    leftmost [/api/], [None] where [match] gives [null]. *)
Definition matchApi (url : string) : option string :=
  Str.upTo "?"%char <$> Str.afterFirst "/api/" url.

(** The [while] loop of [processMethod]: the [checkPath] it leaves with,
    [None] when it runs out of segments. *)
Function findEndpoint (self : server) (segments : list string)
    {measure length segments} : option string :=
  match segments with
  | [] => None
  | _ :: _ =>
      let checkPath := Str.join path_sep segments in
      if present (read (endpoints self) checkPath) then Some checkPath
      else findEndpoint self (removelast segments)
  end.
Proof.
  intros _ segments s l _ _. generalize s.
  induction l as [|y l IH]; intros x; [simpl; lia|].
  change (S (length (removelast (y :: l))) < S (length (y :: l))).
  apply -> Nat.succ_lt_mono. apply IH.
Defined.

(** [processMethod(method, req, res)] *)
Definition processMethod (self : server) (method : verb) (req : request)
  : M world (option promise) :=
  match matchApi (originalUrl req) with
  | None => throw (TypeError "Cannot read properties of null")
  | Some apiUrl =>
      let segments := Str.split path_sep apiUrl in
      match findEndpoint self segments with
      | Some checkPath => processEndpoint self checkPath method req
      | None =>
          _ ← onRes (respondWithError self (failure 404 "api endpoint not found"));
          mret None
      end
  end.

(** [routes]: the four entry points, each [processMethod] under its
    verb. *)
Definition routes (self : server) : list (verb * (request → M world (option promise))) :=
  (λ method, (method, processMethod self method)) <$> [Get; Post; Put; Delete].

(** One request: a fresh response object, and the server's cache as the
    request before left it. *)
Definition serve (self : server) (method : verb) (req : request) (c : cache)
  : completion (option promise) * world :=
  processMethod self method req (c, []).

End Server.

(** ** The resolver: class [Client] *)

Module Client.

(** The call-options object of the caller, with the keys [call] reads;
    [None] is an absent key. *)
Record CallOptions : Type := {
  endpoint : string;
  method : option string;
  params : value;
  contentType : option string;         (* callOptions['Content-Type'] *)
  parser : option (value → value)
}.

(** The options object [loadClientOptions] builds for the transport. *)
Record ClientOptions : Type := {
  headers_contentType : option string; (* clientOptions.headers['Content-Type'] *)
  co_method : option string;
  parameters : option value;
  data : option value
}.

(** What the transport does with one request: it calls the callback with
    the parsed response body, or emits [error] on the request object;
    [NoSuchMethod] when [self.client[method]] is not a function. *)
Inductive transportEvent : Type :=
| Response (body : value)
| TransportError (err : value)
| NoSuchMethod.

(** The fields of a [Client] that never change after its constructor;
    [endpoints] is an ordinary object, given by its own properties;
    [restClient m url opts] is [this.client[m](url, opts, callback)]. *)
Record client : Type := {
  endpoints : gmap string descriptor;
  restClient : option string → option (member descriptor) → ClientOptions → transportEvent
}.

(** The executor of a [new Promise]: the call-options object it closes
    over, and the promise it settles. *)
Definition executor : Type := CallOptions * promise.

(** [resolve(v)], [reject(e)]: only the first settles the promise. *)
Definition settle (p : promise) : M executor () :=
  modify (λ x, match x.2 with
               | Pending => (x.1, p)
               | _ => x
               end).

(** [function (data) { return data }] *)
Definition identity : value → value := λ data, data.

(** [o.method || 'get'] *)
Definition methodOrGet (o : CallOptions) : string :=
  match method o with
  | Some m => if Str.nonEmpty m then m else "get"
  | None => "get"
  end.

(** [o.parser || function (data) { return data }] *)
Definition parserOrIdentity (o : CallOptions) : value → value :=
  default identity (parser o).

(** [loadRequestMethod(callOptions, clientOptions, reject)]; the result
    is [clientOptions] as the function leaves it. *)
Definition loadRequestMethod (clientOptions : ClientOptions) : M executor ClientOptions :=
  callOptions ← gets fst;
  let m := methodOrGet callOptions in
  let clientOptions :=
    {| headers_contentType := headers_contentType clientOptions;
       co_method := Some m;
       parameters := parameters clientOptions;
       data := data clientOptions |} in
  if bool_decide (m = "get" ∨ m = "delete") then
    mret {| headers_contentType := headers_contentType clientOptions;
            co_method := co_method clientOptions;
            parameters := Some (params callOptions);
            data := data clientOptions |}
  else if bool_decide (m = "put" ∨ m = "post") then
    mret {| headers_contentType := headers_contentType clientOptions;
            co_method := co_method clientOptions;
            parameters := parameters clientOptions;
            data := Some (params callOptions) |}
  else
    _ ← settle (Rejected (failure 405 "method not supported"));
    mret clientOptions.

(** [loadClientOptions(callOptions, reject)] *)
Definition loadClientOptions : M executor ClientOptions :=
  callOptions ← gets fst;
  let clientOptions :=
    {| headers_contentType := None; co_method := None;
       parameters := None; data := None |} in
  clientOptions ←
    match contentType callOptions with
    | Some ct =>
        if Str.nonEmpty ct then
          (* delete callOptions['Content-Type'] *)
          _ ← modify (λ x : executor,
                 ({| endpoint := endpoint x.1; method := method x.1;
                     params := params x.1; contentType := None;
                     parser := parser x.1 |}, x.2));
          mret {| headers_contentType := Some ct; co_method := None;
                  parameters := None; data := None |}
        else
          mret {| headers_contentType := Some "application/json"; co_method := None;
                  parameters := None; data := None |}
    | None =>
        mret {| headers_contentType := Some "application/json"; co_method := None;
                parameters := None; data := None |}
    end;
  _ ← modify (λ x : executor,
         ({| endpoint := endpoint x.1; method := method x.1;
             params := params x.1; contentType := contentType x.1;
             parser := Some (parserOrIdentity x.1) |}, x.2));
  loadRequestMethod clientOptions.

(** The value [callRemote] hands to the parser: [data.data ? data.data : data]. *)
Definition returnToParser (body : value) : completion value :=
  match get body "data" with
  | Normal d => Normal (if truthy d then d else body)
  | Throw e => Throw e
  end.

(** The callback [callRemote] gives the transport.  What it throws is
    thrown to the transport, not to the executor. *)
Definition onResponse (body : value) : M executor () :=
  out ← lift (returnToParser body);
  callOptions ← gets fst;
  match parser callOptions with
  | Some parse => settle (Fulfilled (parse out))
  | None => throw (TypeError "callOptions.parser is not a function")
  end.

(** [new Promise(executor)]: what the executor throws rejects the
    promise. *)
Definition newPromise {A} (run : M executor A) : M executor (option A) :=
  catch (a ← run; mret (Some a))
        (λ e, _ ← settle (Rejected e); mret None).

(** The executor of [callRemote]: it builds the options and hands the
    request to the transport. *)
Definition request (self : client) : M executor transportEvent :=
  clientOptions ← loadClientOptions;
  callOptions ← gets fst;
  match restClient self (co_method clientOptions)
          (read (endpoints self) (endpoint callOptions)) clientOptions with
  | NoSuchMethod => throw (TypeError "self.client[clientOptions.method] is not a function")
  | ev => mret ev
  end.

(** [callRemote(endpoint, callOptions)]: the promise returned, as it
    settles, and the call-options object as the call leaves it. *)
Definition callRemote (self : client) (endpoint : option (member descriptor))
  : M CallOptions promise :=
  λ callOptions,
    let '(_, x) :=
      (ev ← newPromise (request self);
       match ev with
       | Some (Response body) => catch (onResponse body) (λ _, mret ())
       | Some (TransportError err) =>
           settle (Rejected (VObj (<["status" := VNum 500]> {[ "message" := err ]})))
       | _ => mret ()
       end) (callOptions, Pending) in
    (Normal x.2, x.1).

(** What a call mutates: the client's instance cache and the
    call-options object. *)
Definition world : Type := cache * CallOptions.

(** The executor of the promise [callLocal] returns, with the callbacks
    on the handler's promise run.  Where the read of [endpointInstances]
    finds a member of [Object.prototype], what is called is a property
    of that member: there is none of the name, or a built-in function,
    which throws or returns what has no [then] to call; the promise is
    rejected with the error either way. *)
Definition invokeLocal (c : cache) (callOptions : CallOptions) : promise :=
  match read (endpointInstances c) (endpoint callOptions) with
  | Some (Own i) =>
      match method callOptions ≫= verbs (inst_class i) with
      | Some handle =>
          match handle (params callOptions) None with
          | Resolves result =>
              match parser callOptions with
              | Some parse => Fulfilled (parse result)
              | None => Rejected (TypeError "callOptions.parser is not a function")
              end
          | Rejects e => Rejected e
          end
      | None => Rejected (TypeError "endpointInstances[endpoint][method] is not a function")
      end
  | Some (Inherited _) =>
      Rejected (TypeError "endpointInstances[endpoint][method] is not a function")
  | None => Rejected (TypeError "Cannot read properties of undefined")
  end.

(** [callLocal(endpoint, callOptions)].  [endpointInstances] is an
    ordinary object: under a key that names a member of
    [Object.prototype] the read finds that member, which is truthy, and
    nothing is made. *)
Definition callLocal (self : client) (endpoint : option (member descriptor))
  : M world promise :=
  _ ← modify (λ w : world,
         (w.1, {| Client.endpoint := Client.endpoint w.2; method := Some (methodOrGet w.2);
                  params := params w.2; contentType := contentType w.2;
                  parser := parser w.2 |}));
  _ ← modify (λ w : world,
         (w.1, {| Client.endpoint := Client.endpoint w.2; method := method w.2;
                  params := params w.2; contentType := contentType w.2;
                  parser := Some (parserOrIdentity w.2) |}));
  w ← gets id;
  let key := Client.endpoint w.2 in
  _ ← match read (endpointInstances w.1) key with
      | Some _ => mret ()
      | None =>
          i ← lift (construct endpoint w.1);
          modify (λ w : world, (store key i w.1, w.2))
      end;
  w ← gets id;
  mret (invokeLocal w.1 w.2).

(** [call(callOptions)]; [typeof endpoint == 'string'] holds of a URL
    only: a member of [Object.prototype] is a function or an object. *)
Definition call (self : client) : M world promise :=
  callOptions ← gets snd;
  let endpoint := read (endpoints self) (Client.endpoint callOptions) in
  match endpoint with
  | Some (Own (Remote _)) => zoom snd (λ o w, (w.1, o)) (callRemote self endpoint)
  | _ => callLocal self endpoint
  end.

End Client.


(** ** The vocabulary of the properties *)

Module Spec.
Import Server.

(** The call [respondWithSuccess] makes on the response object for an
    object [result]. *)
Definition encode (result : gmap string value) : resCall :=
  match result !! "_raw" with
  | Some raw => ResJson raw
  | None =>
      match result !! "_redirect" with
      | Some url => ResRedirect url
      | None =>
          match result !! "data" with
          | Some _ => ResJson (VObj result)
          | None => ResJson (VObj {[ "data" := VObj result ]})
          end
      end
  end.

(** The case analysis in the order the specification lists it: the
    redirect first, then the raw body. *)
Definition encodeRedirectFirst (result : gmap string value) : resCall :=
  match result !! "_redirect" with
  | Some url => ResRedirect url
  | None =>
      match result !! "_raw" with
      | Some raw => ResJson raw
      | None =>
          match result !! "data" with
          | Some _ => ResJson (VObj result)
          | None => ResJson (VObj {[ "data" := VObj result ]})
          end
      end
  end.

(** A success as sent: a JSON body under status 200, or a redirect. *)
Definition successEnvelope (h : httpResponse) : Prop :=
  match h with
  | HttpJson code _ => code = VNum 200
  | HttpRedirect _ => True
  end.

(** [{error: {code, message}}] *)
Definition errorBody (code message : value) : value :=
  VObj {[ "error" := VObj (<["code" := code]> {[ "message" := message ]}) ]}.

(** [undefined] and [null] *)
Definition nullish (v : value) : bool :=
  match v with
  | VUndefined | VNull => true
  | _ => false
  end.

(** The values on which [hasOwnProperty] can be called: neither
    [undefined] nor [null], and, of the objects, the ordinary ones that
    have no own property of that name. *)
Definition probeable (v : value) : bool :=
  match v with
  | VUndefined | VNull | VBare _ => false
  | VObj props => bool_decide (props !! "hasOwnProperty" = None)
  | VBool _ | VNum _ | VStr _ | VError _ => true
  end.

(** The value a property read gives where it does not throw. *)
Definition field (e : value) (k : string) : value :=
  match get e k with
  | Normal v => v
  | Throw _ => VUndefined
  end.

(** The request meta the router passes to the handler. *)
Definition metaOf (req : request) : requestMeta :=
  {| meta_originalUrl := originalUrl req; meta_baseUrl := baseUrl req |}.

(** [key] is a key of the registry. *)
Definition registered (self : server) (key : string) : Prop :=
  is_Some (endpoints self !! key).

(** [key] is a key of the registry, or the name of a member of
    [Object.prototype]: what a read of [endpoints] finds something
    under. *)
Definition answers (self : server) (key : string) : Prop :=
  registered self key ∨ protoMember key = true.

(** No endpoint is registered under the empty URL (which is no URL, and
    which the router's truth test would take for an absent key). *)
Definition urlsNonEmpty (registry : gmap string descriptor) : Prop :=
  ∀ key, registry !! key ≠ Some (Remote "").

(** [p] occurs in [s]. *)
Definition occursIn (p s : string) : Prop :=
  ∃ before behind, s = before +:+ p +:+ behind.

(** A string without the character [c]. *)
Definition without (c : ascii) (s : string) : Prop :=
  ∀ x, In x (list_ascii_of_string s) → x ≠ c.

(** The path made of the first [n] segments. *)
Definition prefixKey (segments : list string) (n : nat) : string :=
  Str.join path_sep (take n segments).

(** The calls [respondWithError] makes for [{status: code, message}]. *)
Definition errorCalls (code message : value) : list resCall :=
  [ResStatus code; ResJson (errorBody code message); ResEnd].

(** The sources [extractParams] merges behind the body and the query,
    each as the object of what it attaches. *)
Definition rawBodySource (req : request) : gmap string value :=
  match rawBody req with
  | Some raw => if Str.nonEmpty raw then {[ "_body" := VStr raw ]} else ∅
  | None => ∅
  end.

Definition authSource (req : request) : gmap string value :=
  match header req "Authorization" with
  | Some a =>
      if Str.nonEmpty a && (Str.startsWith "Bearer " a || Str.startsWith "bearer " a)
      then {[ "_auth_token" := authToken a ]}
      else ∅
  | None => ∅
  end.

Definition requestIdSource (self : server) (req : request) : gmap string value :=
  match header req "X-Request-ID" with
  | Some id =>
      if includeRequestId self && Str.nonEmpty id then {[ "_request_id" := VStr id ]} else ∅
  | None => ∅
  end.

Definition headerSource (self : server) (req : request) : gmap string value :=
  foldl (λ params h, <[h := headerValue (header req h)]> params) ∅ (headerParams self).

(** The four of them, a later one over an earlier one. *)
Definition laterSources (self : server) (req : request) : gmap string value :=
  headerSource self req ∪ (requestIdSource self req ∪ (authSource req ∪ rawBodySource req)).

(** A string without white space, as a token is. *)
Fixpoint noSpace (s : string) : bool :=
  match s with
  | EmptyString => true
  | String c rest => negb (Str.isSpace c) && noSpace rest
  end.

(** The lower-case form of a string of letters. *)
Definition lowerChar (c : ascii) : ascii :=
  let n := nat_of_ascii c in
  if (65 <=? n) && (n <=? 90) then ascii_of_nat (n + 32) else c.

Fixpoint lower (s : string) : string :=
  match s with
  | EmptyString => EmptyString
  | String c rest => String (lowerChar c) (lower rest)
  end.

End Spec.

Module CacheSpec.

(** What holds of an instance cache over the registry it serves: every
    cached instance was made, under its key, from the class registered
    there, and its key names no member of [Object.prototype]; every
    instance made is still cached, under its identity; no key had an
    instance made twice. *)
Definition cacheInv (registry : gmap string descriptor) (c : cache) : Prop :=
  (∀ k i, endpointInstances c !! k = Some i →
          protoMember k = false ∧
          registry !! k = Some (Local (inst_class i)) ∧ (k, inst_id i) ∈ constructed c) ∧
  (∀ k n, (k, n) ∈ constructed c →
          ∃ i, endpointInstances c !! k = Some i ∧ inst_id i = n) ∧
  NoDup (constructed c).*1.

(** How many times [new] ran under [key]. *)
Definition constructions (key : string) (c : cache) : nat :=
  length (filter (λ e, e.1 = key) (constructed c)).

End CacheSpec.

Module ServerSpec.
Import Server.

(** The cache after the dispatch of one request to [path]. *)
Definition dispatch (self : server) (path : string) (method : verb) (req : request)
    (c : cache) : cache :=
  (processEndpoint self path method req (c, [])).2.1.

(** The states of the instance cache a server goes through: one
    dispatch after the other, from the empty cache of the constructor. *)
Definition step (self : server) (c c' : cache) : Prop :=
  ∃ path method req, c' = dispatch self path method req c.

Definition reachable (self : server) (c : cache) : Prop :=
  rtc (step self) emptyCache c.

End ServerSpec.

Module ClientSpec.
Import Client.

(** The call-options object as a remote call leaves it: a truthy
    [Content-Type] deleted, [parser] written. *)
Definition afterRemote (o : CallOptions) : CallOptions :=
  {| endpoint := endpoint o;
     method := method o;
     params := params o;
     contentType :=
       match contentType o with
       | Some ct => if Str.nonEmpty ct then None else Some ct
       | None => None
       end;
     parser := Some (parserOrIdentity o) |}.

(** The call-options object as a local call leaves it: [method] and
    [parser] written. *)
Definition afterLocal (o : CallOptions) : CallOptions :=
  {| endpoint := endpoint o;
     method := Some (methodOrGet o);
     params := params o;
     contentType := contentType o;
     parser := Some (parserOrIdentity o) |}.

(** The verbs [loadRequestMethod] knows. *)
Definition supported (m : string) : bool :=
  bool_decide (m = "get" ∨ m = "delete") || bool_decide (m = "put" ∨ m = "post").

(** The options the transport is handed for the call options [o]. *)
Definition builtOptions (o : CallOptions) : ClientOptions :=
  let m := methodOrGet o in
  {| headers_contentType :=
       Some match contentType o with
            | Some ct => if Str.nonEmpty ct then ct else "application/json"
            | None => "application/json"
            end;
     co_method := Some m;
     parameters := if bool_decide (m = "get" ∨ m = "delete") then Some (params o) else None;
     data :=
       if bool_decide (m = "get" ∨ m = "delete") then None
       else if bool_decide (m = "put" ∨ m = "post") then Some (params o) else None |}.

(** How the promise of a remote call settles. *)
Definition remoteOutcome (self : client) (o : CallOptions) : promise :=
  if supported (methodOrGet o) then
    match restClient self (Some (methodOrGet o)) (read (endpoints self) (endpoint o))
            (builtOptions o) with
    | Response body =>
        match returnToParser body with
        | Normal raw => Fulfilled (parserOrIdentity o raw)
        | Throw _ => Pending
        end
    | TransportError err =>
        Rejected (VObj (<["status" := VNum 500]> {[ "message" := err ]}))
    | NoSuchMethod =>
        Rejected (TypeError "self.client[clientOptions.method] is not a function")
    end
  else Rejected (failure 405 "method not supported").

(** The states of the instance cache a client goes through: one call
    after the other, from the empty cache of the constructor. *)
Definition step (self : client) (c c' : cache) : Prop :=
  ∃ o, c' = (call self (c, o)).2.1.

Definition reachable (self : client) (c : cache) : Prop :=
  rtc (step self) emptyCache c.

(** A call settles with a structured failure of status [code]. *)
Definition settlesWithFailure (code : Z) (r : completion promise) : Prop :=
  ∃ e, r = Normal (Rejected e) ∧ get e "status" = Normal (VNum code).

End ClientSpec.

Module ProcessSpec.

(** A process as the README wires it: one router and one resolver over
    the same [endpoints] object.  Its state is the two instance caches,
    the router's and the resolver's; a step is a dispatch of the router
    or a call of the resolver. *)
Definition state : Type := cache * cache.

Definition start : state := (emptyCache, emptyCache).

Inductive step (srv : Server.server) (cl : Client.client) : state → state → Prop :=
| step_dispatch path method req s :
    step srv cl s (ServerSpec.dispatch srv path method req s.1, s.2)
| step_call o s :
    step srv cl s (s.1, (Client.call cl (s.2, o)).2.1).

Definition reachable (srv : Server.server) (cl : Client.client) (s : state) : Prop :=
  rtc (step srv cl) start s.

(** How many times [new] ran under [key] in the process. *)
Definition constructions (key : string) (s : state) : nat :=
  CacheSpec.constructions key s.1 + CacheSpec.constructions key s.2.

End ProcessSpec.

(** ** A small application, for the examples *)

Module App.

(** A handler class whose [get] resolves with [result]. *)
Definition resolving (result : value) : handlerClass :=
  {| verbs := λ m, if String.eqb m "get" then Some (λ _ _, Resolves result) else None |}.

Definition car : value :=
  VObj (<["make" := VStr "Ford"]> {[ "model" := VStr "Fiesta" ]}).

(** The registry of the application: nested local endpoints, a handler
    that resolves with nothing, one that resolves with 0, and a remote
    endpoint. *)
Definition registry : gmap string descriptor :=
  <["a" := Local (resolving car)]>
    (<["a/b" := Local (resolving (VNum 7))]>
       (<["void" := Local (resolving VUndefined)]>
          (<["counter" := Local (resolving (VNum 0))]>
             {[ "messages" := Remote "https://example.org/api/messages" ]}))).

Definition router : Server.server :=
  {| Server.app := express5;
     Server.endpoints := registry;
     Server.log := VNull;
     Server.includeRequestId := false;
     Server.headerParams := [] |}.

(** [GET url] with a JSON body [{"x": 1}] and the query [x=2]. *)
Definition getRequest (url : string) (authorization : option string) : request :=
  {| originalUrl := url;
     baseUrl := "/api";
     body := {[ "x" := VNum 1 ]};
     query := {[ "x" := VStr "2" ]};
     rawBody := None;
     header := λ name, if String.eqb name "Authorization" then authorization else None |}.

(** A transport of which every request gets the response [body]. *)
Definition answering (body : value)
  : option string → option (member descriptor) → Client.ClientOptions
    → Client.transportEvent :=
  λ _ _ _, Client.Response body.

(** The resolver of the application, over a server that answers [body]. *)
Definition api (body : value) : Client.client :=
  {| Client.endpoints := registry;
     Client.restClient := answering body |}.

(** The same resolver, with [counter] moved to another host, whose
    server answers [body]. *)
Definition remoteApi (body : value) : Client.client :=
  {| Client.endpoints := <["counter" := Remote "https://example.org/api/counter"]> registry;
     Client.restClient := answering body |}.

(** [{endpoint: key, params: {}, 'Content-Type': 'text/plain'}] *)
Definition options (key : string) : Client.CallOptions :=
  {| Client.endpoint := key;
     Client.method := None;
     Client.params := VObj ∅;
     Client.contentType := Some "text/plain";
     Client.parser := None |}.

End App.

(** * Properties of the dispatch engine *)

(** Unfolds the plumbing of [Js.M] in a goal. *)
Ltac run :=
  repeat (cbv [mbind mret M_bind M_ret Js.bind Js.ret Js.lift Js.modify Js.gets
               Js.catch Js.throw Js.zoom Server.onRes Server.onCache chained
               Express.json Express.status Express.redirect Express.end_];
          cbn [fst snd]);
  simpl.

(** ** Response encoding *)

Module Encoding.
Import Server Spec.

Lemma respondWithSuccess_encode (result : gmap string value) (res : response) :
  result !! "hasOwnProperty" = None →
  respondWithSuccess (VObj result) res = (Normal (), res ++ [encode result]).
Proof.
  intros Hprobe. unfold respondWithSuccess, encode. run. rewrite Hprobe. simpl.
  destruct (result !! "_raw") as [raw|] eqn:Hraw; simpl; [reflexivity|].
  destruct (result !! "_redirect") as [url|] eqn:Hre; simpl; [reflexivity|].
  destruct (result !! "data") as [d|] eqn:Hd; reflexivity.
Qed.

(** C1, amended: for every result object on which the probe can be
    called (it has no own property named [hasOwnProperty]),
    [respondWithSuccess] makes exactly one call on the response object,
    chosen in the order of the code: the value under [_raw] as the body
    when the key is there (also when [_redirect] is); otherwise a
    redirect to the value under [_redirect]; otherwise the result itself
    when it has a [data] key; otherwise [{data: result}].  No status is
    set, so every body goes out under the status 200 of a fresh
    response. *)
Theorem respondWithSuccess_raw_first (result : gmap string value) (res : response) :
  result !! "hasOwnProperty" = None →
  respondWithSuccess (VObj result) res = (Normal (), res ++ [encode result]) ∧
  (∀ raw, result !! "_raw" = Some raw → encode result = ResJson raw) ∧
  (∀ url, result !! "_raw" = None → result !! "_redirect" = Some url →
          encode result = ResRedirect url) ∧
  (result !! "_raw" = None → result !! "_redirect" = None → is_Some (result !! "data") →
          encode result = ResJson (VObj result)) ∧
  (result !! "_raw" = None → result !! "_redirect" = None → result !! "data" = None →
          encode result = ResJson (VObj {[ "data" := VObj result ]})) ∧
  (∀ body, encode result = ResJson body →
           sent (respondWithSuccess (VObj result) []).2 = [HttpJson (VNum 200) body]).
Proof.
  intros Hprobe. split; [apply respondWithSuccess_encode, Hprobe|].
  repeat split.
  - unfold encode. intros raw ->. reflexivity.
  - unfold encode. intros url -> ->. reflexivity.
  - unfold encode. intros -> -> [d ->]. reflexivity.
  - unfold encode. intros -> -> ->. reflexivity.
  - intros body Hb. rewrite respondWithSuccess_encode by exact Hprobe.
    simpl. rewrite Hb. reflexivity.
Qed.

Lemma respondWithSuccess_raw_first_witness :
  encode (<["_raw" := VStr "ok"]> {[ "_redirect" := VStr "/login" ]}) = ResJson (VStr "ok").
Proof.
  apply (respondWithSuccess_raw_first (<["_raw" := VStr "ok"]> {[ "_redirect" := VStr "/login" ]}) []);
    reflexivity.
Defined.

(** C1 as stated fails: with both [_raw] and [_redirect] in the result,
    the router sends the raw body and issues no redirect. *)
Lemma respondWithSuccess_redirect_first_fails :
  let result : gmap string value := <["_raw" := VStr "ok"]> {[ "_redirect" := VStr "/login" ]} in
  result !! "_redirect" = Some (VStr "/login") ∧
  (respondWithSuccess (VObj result) []).2 = [ResJson (VStr "ok")] ∧
  (respondWithSuccess (VObj result) []).2 ≠ [encodeRedirectFirst result].
Proof.
  cbv zeta. split; [reflexivity|].
  split; [vm_compute; reflexivity|].
  vm_compute. discriminate.
Qed.

(** [respondWithSuccess] on a value the probe cannot be called on: the
    first probe throws, before anything is written. *)
Lemma respondWithSuccess_throws result res :
  probeable result = false →
  ∃ message, respondWithSuccess result res = (Throw (TypeError message), res).
Proof.
  destruct result as [| |b|n|s|m|props|props]; try discriminate; intros Hp;
    try (eexists; reflexivity).
  simpl in Hp. apply bool_decide_eq_false in Hp.
  unfold respondWithSuccess. run.
  destruct (props !! "hasOwnProperty"); [eexists; reflexivity | congruence].
Qed.

(** [respondWithSuccess] on any other value: one [json] or [redirect]. *)
Lemma respondWithSuccess_defined result res :
  probeable result = true →
  ∃ call, respondWithSuccess result res = (Normal (), res ++ [call]) ∧
          ∃ h, sent [call] = [h] ∧ successEnvelope h.
Proof.
  destruct result as [| |b|n|s|m|props|props]; try discriminate; intros Hp.
  1-3: eexists; split; [reflexivity|]; eexists; split; reflexivity.
  - unfold respondWithSuccess; run.
    destruct (String.eqb "_raw" "message") eqn:E; [discriminate E|].
    eexists; split; [reflexivity|]; eexists; split; reflexivity.
  - simpl in Hp. apply bool_decide_eq_true in Hp.
    exists (encode props). split; [apply respondWithSuccess_encode, Hp|].
    unfold encode.
    destruct (props !! "_raw"); [eexists; split; reflexivity|].
    destruct (props !! "_redirect"); [eexists; split; reflexivity|].
    destruct (props !! "data"); eexists; split; reflexivity.
Qed.

(** [null] and [undefined] are among the values the probe throws on. *)
Lemma nullish_not_probeable v : nullish v = true → probeable v = false.
Proof. destruct v; try discriminate; reflexivity. Qed.

(** [respondWithError] in one step.  Reading [e.status] throws on
    [null] and [undefined]; a status the platform does not take makes
    the chain throw; in both cases nothing is written, and [res.end()]
    is not reached. *)
Lemma respondWithError_value self e res :
  respondWithError self e res =
  if nullish e
  then (Throw (TypeError (if e is VNull then "Cannot read properties of null"
                          else "Cannot read properties of undefined")), res)
  else if takesStatus (app self) (field e "status")
  then (Normal (), res ++ errorCalls (field e "status") (field e "message"))
  else (Throw (RangeError "Invalid status code"), res).
Proof.
  unfold respondWithError, errorCalls, field.
  destruct e; run; try reflexivity;
    match goal with
    | |- context [takesStatus ?a ?v] => destruct (takesStatus a v)
    end; run; rewrite <- ?app_assoc; reflexivity.
Qed.

Lemma field_failure code message :
  field (failure code message) "status" = VNum code ∧
  field (failure code message) "message" = VStr message.
Proof.
  unfold field, failure, get.
  rewrite lookup_insert_eq, lookup_insert_ne, lookup_insert_eq by done. split; reflexivity.
Qed.

(** A failure [{status, message}] whose status is a status code is
    answered on every platform. *)
Lemma respondWithError_failure self code message res :
  isStatusCode code = true →
  respondWithError self (failure code message) res =
  (Normal (), res ++ errorCalls (VNum code) (VStr message)).
Proof.
  intros Hcode. rewrite respondWithError_value.
  destruct (field_failure code message) as [-> ->].
  change (nullish (failure code message)) with false. cbv iota.
  rewrite (takesStatus_code (app self) code Hcode). reflexivity.
Qed.

(** What carries no number or string under [status] is answered on no
    platform: so the errors the engine and the platform throw. *)
Lemma takesStatus_undefined (a : application) : takesStatus a VUndefined = false.
Proof.
  destruct (takesStatus a VUndefined) eqn:E; [|reflexivity].
  destruct (takesStatus_data a _ E) as [[n Hn]|[s Hs]]; discriminate.
Qed.

Lemma respondWithError_Error self message res :
  respondWithError self (VError message) res =
  (Throw (RangeError "Invalid status code"), res).
Proof.
  rewrite respondWithError_value. change (field (VError message) "status") with VUndefined.
  rewrite takesStatus_undefined. reflexivity.
Qed.

Lemma sent_errorCalls code message :
  sent (errorCalls code message) = [HttpJson code (errorBody code message)].
Proof. reflexivity. Qed.

(** How a chain of callbacks that has run leaves the promise of the
    dispatch and the response. *)
Definition answered (c : cache) (r : completion () * response)
  : completion (option promise) * world :=
  match r with
  | (Normal _, res) => (Normal (Some (Fulfilled VUndefined)), (c, res))
  | (Throw e, res) => (Normal (Some (Rejected e)), (c, res))
  end.

(** [processEndpoint] in one step. *)
Lemma processEndpoint_run self path method req c res :
  processEndpoint self path method req (c, res) =
  match getEndpoint self path c with
  | (Throw e, c') => (Throw e, (c', res))
  | (Normal endpoint, c') =>
      match methodOf endpoint method with
      | None =>
          (Normal None, (c', res ++ errorCalls (VNum 405) (VStr "method not available")))
      | Some handle =>
          match handle (VObj (extractParams self method req)) (Some (metaOf req)) with
          | Resolves result =>
              match respondWithSuccess result res with
              | (Normal u, res') => answered c' (Normal u, res')
              | (Throw e, res') => answered c' (respondWithError self e res')
              end
          | Rejects e => answered c' (respondWithError self e res)
          end
      end
  end.
Proof.
  unfold processEndpoint, metaOf, answered.
  cbv [mbind mret M_bind M_ret Js.bind Js.ret Js.catch chained onRes onCache Js.zoom].
  cbn [fst snd].
  destruct (getEndpoint self path c) as [[endpoint|e] c']; [|reflexivity].
  destruct (methodOf endpoint method) as [handle|].
  - set (settles := handle _ _). destruct settles as [result|e]; cbn [fst snd].
    + destruct (respondWithSuccess result res) as [[u|e] res']; cbn [fst snd];
        [reflexivity|].
      destruct (respondWithError self e res') as [[u|e'] res'']; reflexivity.
    + destruct (respondWithError self e res) as [[u|e'] res']; reflexivity.
  - rewrite respondWithError_failure by reflexivity. reflexivity.
Qed.

(** C10, amended: the success encoding is defined for the values on
    which the own-property probe can be called: those other than [null]
    and [undefined] that, when objects, inherit [hasOwnProperty] and do
    not shadow it.  When the handler resolves with such a value the
    router makes one call on the response object, which has one success
    sent.  When it resolves with any other value, so with [null] or with
    [undefined], [respondWithSuccess] throws at its first probe with
    nothing written; the [catch] hands the [TypeError] to
    [respondWithError], which sets the status [undefined], and that the
    platform does not take: nothing is sent, neither a success nor an
    error envelope, and the promise of the dispatch is rejected. *)
Theorem success_encoding_defined_off_nullish
    self path method req c c' i handle result :
  getEndpoint self path c = (Normal (Own i), c') →
  verbs (inst_class i) (verbName method) = Some handle →
  handle (VObj (extractParams self method req)) (Some (metaOf req)) = Resolves result →
  let out := processEndpoint self path method req (c, []) in
  (nullish result = true → probeable result = false) ∧
  (probeable result = true →
     out.1 = Normal (Some (Fulfilled VUndefined)) ∧
     ∃ call h, out.2.2 = [call] ∧ sent out.2.2 = [h] ∧ successEnvelope h) ∧
  (probeable result = false →
     (∃ message, respondWithSuccess result [] = (Throw (TypeError message), [])) ∧
     out.1 = Normal (Some (Rejected (RangeError "Invalid status code"))) ∧
     sent out.2.2 = []).
Proof.
  intros Hget Hverb Hres out. subst out.
  rewrite processEndpoint_run, Hget. cbn [methodOf]. rewrite Hverb, Hres.
  split; [apply nullish_not_probeable|]. split; intros Hp.
  - destruct (respondWithSuccess_defined result [] Hp) as (call & -> & h & Hsent & Hok).
    simpl. split; [reflexivity|]. exists call, h. done.
  - destruct (respondWithSuccess_throws result [] Hp) as (message & Hthrow).
    split; [exists message; exact Hthrow|].
    rewrite Hthrow. unfold TypeError. rewrite respondWithError_Error. cbn [answered fst snd].
    split; reflexivity.
Qed.

Lemma success_encoding_defined_off_nullish_witness :
  let out := processEndpoint App.router "a" Get (App.getRequest "/api/a" None) (emptyCache, []) in
  out.1 = Normal (Some (Fulfilled VUndefined)) ∧
  ∃ call h, out.2.2 = [call] ∧ sent out.2.2 = [h] ∧ successEnvelope h.
Proof.
  apply (success_encoding_defined_off_nullish App.router "a" Get
           (App.getRequest "/api/a" None) emptyCache
           (getEndpoint App.router "a" emptyCache).2
           {| inst_id := 0; inst_class := App.resolving App.car;
              inst_log := Some (log App.router) |}
           (λ _ _, Resolves App.car) App.car);
    reflexivity.
Defined.

(** C10 as stated fails: [undefined] is not [null], yet a handler that
    resolves with it makes the success encoding throw, and the router
    produces no response at all. *)
Lemma undefined_result_faults :
  let out := processEndpoint App.router "void" Get (App.getRequest "/api/void" None)
               (emptyCache, []) in
  VUndefined ≠ VNull ∧
  (respondWithSuccess VUndefined []).1 = Throw (TypeError "Cannot read properties of undefined") ∧
  out.1 = Normal (Some (Rejected (RangeError "Invalid status code"))) ∧
  sent out.2.2 = [] ∧
  ¬ (∃ h, sent out.2.2 = [h]).
Proof.
  cbv zeta.
  assert (Hout : processEndpoint App.router "void" Get
                   (App.getRequest "/api/void" None) (emptyCache, []) =
                 (Normal (Some (Rejected (RangeError "Invalid status code"))),
                  ((getEndpoint App.router "void" emptyCache).2, [])))
    by (vm_compute; reflexivity).
  split; [discriminate|]. split; [reflexivity|].
  rewrite Hout. cbn [fst snd]. split; [reflexivity|]. split; [reflexivity|].
  intros (h & Heq). discriminate Heq.
Qed.

End Encoding.

(** ** Path resolution *)

Module Resolution.
Import Server Spec.

Lemma split_nonempty sep s : Str.split sep s ≠ [].
Proof.
  destruct s as [|c s]; simpl; [discriminate|].
  destruct (Ascii.eqb c sep); [discriminate|].
  destruct (Str.split sep s); discriminate.
Qed.

(** Joining the segments gives the path back. *)
Lemma join_split sep s : Str.join sep (Str.split sep s) = s.
Proof.
  unfold Str.join. induction s as [|c s IH]; [reflexivity|].
  pose proof (split_nonempty sep s) as Hs.
  simpl. destruct (Ascii.eqb_spec c sep) as [->|Hne];
    destruct (Str.split sep s) as [|seg segs]; try done.
  - change (String sep (String.concat (String sep "") (seg :: segs)) = String sep s).
    rewrite IH. reflexivity.
  - destruct segs as [|seg' segs].
    + simpl in *. rewrite IH. reflexivity.
    + change (String c (String.concat (String sep "") (seg :: seg' :: segs)) = String c s).
      rewrite IH. reflexivity.
Qed.

Lemma upTo_stop stop (s rest : string) :
  without stop s → Str.upTo stop (s +:+ String stop rest) = s.
Proof.
  unfold without. induction s as [|c s IH]; intros Hs; simpl.
  - rewrite Ascii.eqb_refl. reflexivity.
  - destruct (Ascii.eqb_spec c stop) as [->|_].
    + exfalso. apply (Hs stop); [left; reflexivity | reflexivity].
    + rewrite IH; [reflexivity|]. intros c' Hc'. apply Hs. right. exact Hc'.
Qed.

Lemma upTo_without stop s :
  without stop s → Str.upTo stop s = s.
Proof.
  unfold without. induction s as [|c s IH]; intros Hs; [reflexivity|].
  simpl. destruct (Ascii.eqb_spec c stop) as [->|_].
  - exfalso. apply (Hs stop); [left; reflexivity | reflexivity].
  - rewrite IH; [reflexivity|]. intros x Hx. apply Hs. right. exact Hx.
Qed.

(** The sub-path of a URL that begins with the mount prefix: what lies
    between [/api/] and the query string, if there is one. *)
Lemma matchApi_mounted (sub rest : string) :
  without "?" sub → rest = "" ∨ (∃ q, rest = String "?" q) →
  matchApi ("/api/" +:+ sub +:+ rest) = Some sub.
Proof.
  intros Hsub [-> | [q ->]]; unfold matchApi.
  - assert (Hnil : ∀ s : string, s +:+ "" = s)
      by (induction s as [|x s IH];
            [reflexivity
            |change (String x s +:+ "") with (String x (s +:+ "")); f_equal; exact IH]).
    rewrite Hnil.
    change (Str.afterFirst "/api/" ("/api/" +:+ sub)) with (Some sub).
    simpl. rewrite upTo_without by exact Hsub. reflexivity.
  - change (Str.afterFirst "/api/" ("/api/" +:+ sub +:+ String "?" q))
      with (Some (sub +:+ String "?" q)).
    simpl. rewrite upTo_stop by exact Hsub. reflexivity.
Qed.

(** What the truth test of the loop takes for an endpoint: a registered
    key, and the name of a member of [Object.prototype]. *)
Lemma present_answers self key :
  urlsNonEmpty (endpoints self) →
  present (read (endpoints self) key) = true ↔ answers self key.
Proof.
  intros Hwf. unfold answers, registered, read. specialize (Hwf key).
  destruct (endpoints self !! key) as [[url|cls]|]; simpl.
  - split; [eauto|intros _]. unfold Str.nonEmpty.
    destruct (String.eqb_spec url ""); [congruence|reflexivity].
  - split; eauto.
  - destruct (protoMember key); simpl.
    + split; eauto.
    + split; [discriminate|]. intros [[? ?]|?]; discriminate.
Qed.

(** The loop on the first [n] segments: it leaves with the longest of
    their prefixes that the truth test takes. *)
Lemma findEndpoint_take self segments n :
  n ≤ length segments →
  match findEndpoint self (take n segments) with
  | Some key =>
      ∃ m, 0 < m ≤ n ∧ key = prefixKey segments m ∧
           present (read (endpoints self) (prefixKey segments m)) = true ∧
           ∀ j, m < j ≤ n → present (read (endpoints self) (prefixKey segments j)) = false
  | None => ∀ j, 0 < j ≤ n → present (read (endpoints self) (prefixKey segments j)) = false
  end.
Proof.
  induction n as [|n IH]; intros Hn.
  - rewrite findEndpoint_equation. simpl. intros j Hj. lia.
  - rewrite findEndpoint_equation.
    destruct (take (S n) segments) as [|x l] eqn:Htake.
    { apply (f_equal length) in Htake. rewrite length_take_le in Htake by lia. discriminate. }
    rewrite <- Htake. fold (prefixKey segments (S n)).
    destruct (present (read (endpoints self) (prefixKey segments (S n)))) eqn:Hp.
    + exists (S n). split_and!; [lia | lia | reflexivity | exact Hp |]. intros j Hj. lia.
    + rewrite removelast_firstn by lia.
      specialize (IH ltac:(lia)).
      destruct (findEndpoint self (take n segments)) as [key|].
      * destruct IH as (m & Hm & -> & Hpm & Hlater).
        exists m. split_and!; [lia | lia | reflexivity | exact Hpm |].
        intros j Hj. destruct (decide (j = S n)) as [->|]; [exact Hp|]. apply Hlater. lia.
      * intros j Hj. destruct (decide (j = S n)) as [->|]; [exact Hp|]. apply IH. lia.
Qed.

(** [processMethod] in one step. *)
Lemma serve_run self method req c :
  serve self method req c =
  match matchApi (originalUrl req) with
  | None => (Throw (TypeError "Cannot read properties of null"), (c, []))
  | Some apiUrl =>
      match findEndpoint self (Str.split path_sep apiUrl) with
      | Some checkPath => processEndpoint self checkPath method req (c, [])
      | None => (Normal None, (c, errorCalls (VNum 404) (VStr "api endpoint not found")))
      end
  end.
Proof.
  unfold serve, processMethod.
  destruct (matchApi (originalUrl req)) as [apiUrl|]; [|reflexivity].
  destruct (findEndpoint self _); [reflexivity|].
  cbv [mbind mret M_bind M_ret Js.bind Js.ret onRes Js.zoom]. cbn [fst snd].
  rewrite Encoding.respondWithError_failure by reflexivity. reflexivity.
Qed.

(** C2, at the failing input: [GET /api/constructor] on the router of
    the application, where no key of the registry is a prefix of the
    path [constructor].  The truth test of the loop finds the member
    [constructor] that the registry inherits from [Object.prototype],
    the path resolves to it, and the request is answered with status 405
    and [method not available], not with status 404 and
    [api endpoint not found].  So it is for each of the names of the
    members of [Object.prototype]. *)
Theorem inherited_name_not_404 :
  let self := App.router in
  let req := App.getRequest "/api/constructor" None in
  let segments := Str.split path_sep "constructor" in
  matchApi (originalUrl req) = Some "constructor" ∧
  (∀ n, 0 < n ≤ length segments → ¬ registered self (prefixKey segments n)) ∧
  findEndpoint self segments = Some "constructor" ∧
  serve self Get req emptyCache =
    (Normal None, (emptyCache, errorCalls (VNum 405) (VStr "method not available"))) ∧
  sent (serve self Get req emptyCache).2.2 =
    [HttpJson (VNum 405) (errorBody (VNum 405) (VStr "method not available"))] ∧
  sent (serve self Get req emptyCache).2.2 ≠
    [HttpJson (VNum 404) (errorBody (VNum 404) (VStr "api endpoint not found"))] ∧
  (∀ name, name ∈ prototypeNames →
     ¬ registered self name ∧
     sent (serve self Get (App.getRequest ("/api/" +:+ name) None) emptyCache).2.2 =
       [HttpJson (VNum 405) (errorBody (VNum 405) (VStr "method not available"))]).
Proof.
  cbv zeta.
  assert (Hserve : serve App.router Get (App.getRequest "/api/constructor" None) emptyCache =
            (Normal None, (emptyCache, errorCalls (VNum 405) (VStr "method not available"))))
    by (vm_compute; reflexivity).
  split_and!.
  - reflexivity.
  - intros n Hn. change (length (Str.split path_sep "constructor")) with 1 in Hn.
    assert (n = 1) as -> by lia. vm_compute. intros [d Hd]. discriminate Hd.
  - vm_compute. reflexivity.
  - exact Hserve.
  - rewrite Hserve. reflexivity.
  - rewrite Hserve. discriminate.
  - intros name Hin. unfold prototypeNames in Hin.
    repeat (apply elem_of_cons in Hin as [-> | Hin];
            [split; [vm_compute; intros [d Hd]; discriminate Hd | vm_compute; reflexivity]|]).
    apply elem_of_nil in Hin. contradiction.
Qed.

(** X28: the resolution of the endpoint, for a request under the mount
    prefix.  The sub-path is what lies between [/api/] and the query
    string; the router splits it at [/] and resolves it to the longest
    prefix of segments that the registry answers for, which is a
    registered key or the name of a member of [Object.prototype]: it
    tries the full path first (the joined segments are the sub-path) and
    drops the last segment until a prefix answers, the request then
    going to [processEndpoint] under it; when no prefix answers it
    responds with status 404 and the message [api endpoint not found].
    With [a] and [a/b] registered, [a/b/c] resolves to [a/b]. *)
Theorem processMethod_longest_prefix self method req sub rest c :
  urlsNonEmpty (endpoints self) →
  originalUrl req = "/api/" +:+ sub +:+ rest →
  without "?" sub → rest = "" ∨ (∃ q, rest = String "?" q) →
  let segments := Str.split path_sep sub in
  matchApi (originalUrl req) = Some sub ∧
  prefixKey segments (length segments) = sub ∧
  ((∃ n, 0 < n ≤ length segments ∧
         answers self (prefixKey segments n) ∧
         (∀ m, n < m ≤ length segments → ¬ answers self (prefixKey segments m)) ∧
         findEndpoint self segments = Some (prefixKey segments n) ∧
         serve self method req c =
           processEndpoint self (prefixKey segments n) method req (c, []))
   ∨ ((∀ m, 0 < m ≤ length segments → ¬ answers self (prefixKey segments m)) ∧
      findEndpoint self segments = None ∧
      serve self method req c =
        (Normal None, (c, errorCalls (VNum 404) (VStr "api endpoint not found"))) ∧
      sent (serve self method req c).2.2 =
        [HttpJson (VNum 404) (errorBody (VNum 404) (VStr "api endpoint not found"))])) ∧
  (sub = "a/b/c" → registered self "a" → registered self "a/b" →
   ¬ registered self "a/b/c" → findEndpoint self segments = Some "a/b").
Proof.
  intros Hwf Hurl Hsub Hrest segments.
  assert (Hmatch : matchApi (originalUrl req) = Some sub)
    by (rewrite Hurl; apply matchApi_mounted; assumption).
  assert (Hfull : prefixKey segments (length segments) = sub).
  { unfold prefixKey. rewrite firstn_all. apply join_split. }
  pose proof (findEndpoint_take self segments (length segments) (le_n _)) as Hfind.
  rewrite firstn_all in Hfind.
  assert (Hserve : serve self method req c =
            match findEndpoint self segments with
            | Some checkPath => processEndpoint self checkPath method req (c, [])
            | None => (Normal None, (c, errorCalls (VNum 404) (VStr "api endpoint not found")))
            end).
  { rewrite serve_run, Hmatch. reflexivity. }
  split; [exact Hmatch|]. split; [exact Hfull|]. split.
  - destruct (findEndpoint self segments) as [key|] eqn:Hkey.
    + left. destruct Hfind as (n & Hn & -> & Hp & Hlater).
      exists n. split_and!; [lia | lia | | | reflexivity | exact Hserve].
      * apply present_answers; assumption.
      * intros m Hm Hreg. apply (present_answers _ _ Hwf) in Hreg.
        rewrite (Hlater m Hm) in Hreg. discriminate.
    + right. split_and!; [| reflexivity | exact Hserve | rewrite Hserve; reflexivity].
      intros m Hm Hreg. apply (present_answers _ _ Hwf) in Hreg.
      rewrite (Hfind m Hm) in Hreg. discriminate.
  - intros -> Ha Hab Habc. subst segments.
    assert (Hyes : present (read (endpoints self) "a/b") = true)
      by (apply (present_answers _ _ Hwf); left; exact Hab).
    assert (Hnot : present (read (endpoints self) "a/b/c") = false).
    { destruct (present (read (endpoints self) "a/b/c")) eqn:E; [|reflexivity].
      apply (present_answers _ _ Hwf) in E. destruct E as [E|E]; [contradiction|discriminate E]. }
    change (Str.split path_sep "a/b/c") with ["a"; "b"; "c"].
    rewrite findEndpoint_equation.
    change (Str.join path_sep ["a"; "b"; "c"]) with "a/b/c". cbv zeta. rewrite Hnot.
    change (removelast ["a"; "b"; "c"]) with ["a"; "b"].
    rewrite findEndpoint_equation.
    change (Str.join path_sep ["a"; "b"]) with "a/b". cbv zeta. rewrite Hyes. reflexivity.
Qed.

Lemma processMethod_longest_prefix_witness :
  matchApi "/api/a/b/c?x=2" = Some "a/b/c" ∧
  findEndpoint App.router (Str.split path_sep "a/b/c") = Some "a/b".
Proof.
  assert (Hwf : urlsNonEmpty (endpoints App.router)).
  { intros key. unfold App.router, App.registry; simpl.
    rewrite !lookup_insert, lookup_singleton.
    repeat case_decide; discriminate. }
  assert (Hsub : without "?" "a/b/c").
  { intros x Hx. simpl in Hx. destruct Hx as [<-|[<-|[<-|[<-|[<-|[]]]]]]; discriminate. }
  destruct (processMethod_longest_prefix App.router Get
              (App.getRequest "/api/a/b/c?x=2" None) "a/b/c" "?x=2" emptyCache
              Hwf eq_refl Hsub (or_intror (ex_intro _ "x=2" eq_refl)))
    as (Hmatch & _ & _ & Hexample).
  split; [exact Hmatch|]. apply Hexample.
  - reflexivity.
  - vm_compute. eauto.
  - vm_compute. eauto.
  - vm_compute. intros [x Hx]. discriminate Hx.
Defined.

End Resolution.

(** ** Parameter extraction *)

Module Extraction.
Import Server Spec.

(** The [for ... in] loop over the query is a union, the query over the
    body. *)
Lemma merge_query (query body : gmap string value) :
  map_fold (λ key v params, <[key := v]> params) body query = query ∪ body.
Proof.
  apply (map_fold_weak_ind (λ r m, r = m ∪ body)).
  - symmetry. apply (left_id_L ∅ (∪)).
  - intros i x m r _ ->. apply insert_union_l.
Qed.

Lemma insert_as_union (k : string) (v : value) (m : gmap string value) :
  <[k := v]> m = {[ k := v ]} ∪ m.
Proof. apply insert_union_singleton_l. Qed.

Lemma copy_headers (hv : string → value) (hs : list string) (params : gmap string value) :
  foldl (λ params h, <[h := hv h]> params) params hs =
  foldl (λ params h, <[h := hv h]> params) ∅ hs ∪ params.
Proof.
  revert params. induction hs as [|h hs IH]; intros params; simpl.
  - symmetry. apply (left_id_L ∅ (∪)).
  - rewrite IH. rewrite (IH (<[h := hv h]> ∅)).
    rewrite <- (assoc_L (∪)). f_equal.
    rewrite <- insert_union_l. rewrite (left_id_L ∅ (∪)). reflexivity.
Qed.

Lemma copy_headers_lookup (hv : string → value) (hs : list string) (k : string) :
  foldl (λ params h, <[h := hv h]> params) (∅ : gmap string value) hs !! k =
  if bool_decide (k ∈ hs) then Some (hv k) else None.
Proof.
  induction hs as [|h hs IH] using rev_ind.
  - reflexivity.
  - rewrite foldl_snoc. rewrite lookup_insert.
    destruct (decide (h = k)) as [->|Hne].
    + rewrite bool_decide_eq_true_2; [reflexivity|].
      apply elem_of_app. right. apply list_elem_of_singleton. reflexivity.
    + assert (Hiff : k ∈ hs ++ [h] ↔ k ∈ hs).
      { rewrite elem_of_app, list_elem_of_singleton.
        split; [intros [Hin | Heq]; [exact Hin | congruence] | auto]. }
      rewrite (bool_decide_ext _ _ Hiff). exact IH.
Qed.

(** [extractParams] is the union of its sources, a later source over an
    earlier one. *)
Lemma extractParams_sources self method req :
  extractParams self method req = laterSources self req ∪ (query req ∪ body req).
Proof.
  unfold extractParams, laterSources, headerSource, requestIdSource, authSource,
    rawBodySource.
  rewrite copy_headers, merge_query. rewrite <- !(assoc_L (∪)). f_equal.
  assert (Hif : ∀ (b : bool) k v (m : gmap string value),
            (if b then <[k := v]> m else m) = (if b then {[ k := v ]} else ∅) ∪ m).
  { intros [] k v m; [apply insert_as_union|]. symmetry. apply (left_id_L ∅ (∪)). }
  destruct (header req "X-Request-ID") as [id|];
    [rewrite Hif | rewrite (left_id_L ∅ (∪))];
    (destruct (header req "Authorization") as [a|];
       [rewrite Hif | rewrite (left_id_L ∅ (∪))]);
    (destruct (rawBody req) as [raw|];
       [rewrite Hif | rewrite (left_id_L ∅ (∪))]);
    reflexivity.
Qed.

(** C6: the extracted params are one object, the union of the sources
    with a later source over an earlier one; the body is the base and the
    query is merged on top of it, so that under a key no later source
    attaches the params hold the query's value when the query has the
    key, and the body's otherwise.  A body [{"x": 1}] with the query
    [x=2] yields [x = "2"]. *)
Theorem extractParams_query_over_body self method req :
  extractParams self method req = laterSources self req ∪ (query req ∪ body req) ∧
  ∀ k, laterSources self req !! k = None →
       extractParams self method req !! k =
         match query req !! k with
         | Some v => Some v
         | None => body req !! k
         end.
Proof.
  split; [apply extractParams_sources|].
  intros k Hk. rewrite extractParams_sources.
  rewrite lookup_union_r by exact Hk.
  rewrite lookup_union. destruct (query req !! k), (body req !! k); reflexivity.
Qed.

Lemma extractParams_query_over_body_witness :
  body (App.getRequest "/api/a?x=2" None) !! "x" = Some (VNum 1) ∧
  query (App.getRequest "/api/a?x=2" None) !! "x" = Some (VStr "2") ∧
  extractParams App.router Get (App.getRequest "/api/a?x=2" None) !! "x" = Some (VStr "2").
Proof.
  split; [reflexivity|]. split; [reflexivity|].
  apply (extractParams_query_over_body App.router Get (App.getRequest "/api/a?x=2" None)).
  reflexivity.
Defined.

Lemma splitSpace_noSpace token :
  noSpace token = true → Str.splitSpace token = [token].
Proof.
  induction token as [|c token IH]; [reflexivity|].
  simpl. intros [Hc Htoken]%andb_prop.
  destruct (Str.isSpace c); [discriminate|]. rewrite (IH Htoken). reflexivity.
Qed.

Lemma authToken_bearer scheme token :
  noSpace scheme = true → noSpace token = true →
  authToken (scheme +:+ " " +:+ token) = VStr token.
Proof.
  intros Hscheme Htoken. unfold authToken.
  assert (Hsplit : Str.splitSpace (scheme +:+ " " +:+ token) = [scheme; token]).
  { induction scheme as [|c scheme IH].
    - change (Str.splitSpace ("" +:+ " " +:+ token)) with ("" :: Str.splitSpace token).
      rewrite (splitSpace_noSpace _ Htoken). reflexivity.
    - simpl in Hscheme. apply andb_prop in Hscheme as [Hc Hscheme].
      simpl. destruct (Str.isSpace c); [discriminate|].
      change (Str.splitSpace (scheme +:+ String " " token))
        with (Str.splitSpace (scheme +:+ " " +:+ token)).
      rewrite (IH Hscheme). reflexivity. }
  rewrite Hsplit. reflexivity.
Qed.

Lemma laterSources_auth_token self req :
  "_auth_token" ∉ headerParams self →
  laterSources self req !! "_auth_token" = authSource req !! "_auth_token".
Proof.
  intros Hnot. unfold laterSources.
  rewrite lookup_union_r.
  - rewrite lookup_union_r.
    + apply lookup_union_l.
      unfold rawBodySource. destruct (rawBody req) as [raw|]; [|reflexivity].
      destruct (Str.nonEmpty raw); reflexivity.
    + unfold requestIdSource. destruct (header req "X-Request-ID") as [id|]; [|reflexivity].
      destruct (includeRequestId self && Str.nonEmpty id); reflexivity.
  - unfold headerSource. rewrite copy_headers_lookup.
    rewrite bool_decide_eq_false_2 by exact Hnot. reflexivity.
Qed.

(** C7, amended: for every request whose [Authorization] header is
    [Bearer <token>] or [bearer <token>] (these two spellings of the
    scheme, one space, a token without white space), parameter extraction
    attaches the token under [_auth_token], unless [_auth_token] is itself
    a configured header name, which is copied over it. *)
Theorem extractParams_bearer self method req scheme token :
  scheme = "Bearer" ∨ scheme = "bearer" →
  noSpace token = true →
  header req "Authorization" = Some (scheme +:+ " " +:+ token) →
  "_auth_token" ∉ headerParams self →
  extractParams self method req !! "_auth_token" = Some (VStr token).
Proof.
  intros Hscheme Htoken Hheader Hnot.
  rewrite extractParams_sources, lookup_union.
  rewrite laterSources_auth_token by exact Hnot.
  unfold authSource. rewrite Hheader.
  assert (Hguard : Str.nonEmpty (scheme +:+ " " +:+ token) &&
                   (Str.startsWith "Bearer " (scheme +:+ " " +:+ token)
                    || Str.startsWith "bearer " (scheme +:+ " " +:+ token)) = true).
  { destruct Hscheme as [-> | ->]; destruct token; reflexivity. }
  rewrite Hguard, lookup_singleton_eq.
  rewrite authToken_bearer; [|destruct Hscheme as [-> | ->]; reflexivity|exact Htoken].
  destruct ((query req ∪ body req) !! "_auth_token"); reflexivity.
Qed.

Lemma extractParams_bearer_witness :
  extractParams App.router Get (App.getRequest "/api/a" (Some "bearer abc123")) !! "_auth_token"
  = Some (VStr "abc123").
Proof.
  apply (extractParams_bearer App.router Get
           (App.getRequest "/api/a" (Some "bearer abc123")) "bearer" "abc123").
  - right. reflexivity.
  - reflexivity.
  - reflexivity.
  - simpl. apply not_elem_of_nil.
Defined.

(** C7 as stated fails: [BEARER] is the scheme up to case, yet no token
    is attached. *)
Lemma uppercase_bearer_ignored :
  let req := App.getRequest "/api/a" (Some "BEARER abc123") in
  header req "Authorization" = Some ("BEARER" +:+ " " +:+ "abc123") ∧
  lower "BEARER" = lower "Bearer" ∧
  extractParams App.router Get req !! "_auth_token" = None.
Proof.
  cbv zeta. split; [reflexivity|]. split; [reflexivity|]. vm_compute. reflexivity.
Qed.

End Extraction.

(** ** The instance cache *)

Module Cache.
Import CacheSpec.

(** A read under a name that is no member of [Object.prototype] is the
    lookup of the own properties. *)
Lemma read_own {A} (own : gmap string A) k :
  protoMember k = false → read own k = Own <$> own !! k.
Proof. intros Hk. unfold read. rewrite Hk. destruct (own !! k); reflexivity. Qed.

Lemma read_None {A} (own : gmap string A) k :
  read own k = None ↔ own !! k = None ∧ protoMember k = false.
Proof.
  unfold read. destruct (own !! k); [split; [discriminate | intros [? _]; discriminate]|].
  destruct (protoMember k); split; try discriminate; try done. intros [_ ?]. discriminate.
Qed.

Lemma read_Own {A} (own : gmap string A) k a :
  read own k = Some (Own a) ↔ own !! k = Some a.
Proof.
  unfold read. destruct (own !! k) as [x|].
  - split; intros [= ->]; reflexivity.
  - destruct (protoMember k); split; discriminate.
Qed.

Lemma read_Inherited {A} (own : gmap string A) k name :
  read own k = Some (Inherited name) ↔ own !! k = None ∧ protoMember k = true ∧ name = k.
Proof.
  unfold read. destruct (own !! k) as [x|].
  - split; [discriminate | intros [? _]; discriminate].
  - destruct (protoMember k).
    + split; [intros [= ->]; done | intros (_ & _ & ->); reflexivity].
    + split; [discriminate | intros (_ & ? & _); discriminate].
Qed.

(** Where a read of the cache finds nothing, the key names no member of
    [Object.prototype], and the read of the registry that [new] is run
    on finds an own property or nothing: never an inherited member. *)
Lemma read_None_own {A B} (cached : gmap string A) (registry : gmap string B) key :
  read cached key = None → read registry key = Own <$> registry !! key.
Proof. intros [_ Hkey]%read_None. apply read_own. exact Hkey. Qed.

Lemma cacheInv_empty registry : cacheInv registry emptyCache.
Proof.
  split_and!.
  - intros k i Hk. simpl in Hk. rewrite lookup_empty in Hk. discriminate.
  - intros k n Hin. simpl in Hin. apply not_elem_of_nil in Hin. contradiction.
  - simpl. apply NoDup_nil_2.
Qed.

(** What [new] made from the read of a registry, under a key that names
    no member of [Object.prototype]. *)
Lemma construct_own registry c key i :
  protoMember key = false →
  construct (read registry key) c = Normal i →
  registry !! key = Some (Local (inst_class i)) ∧ inst_id i = length (constructed c).
Proof.
  intros Hkey. rewrite read_own by exact Hkey. unfold construct.
  destruct (registry !! key) as [[url|cls]|]; simpl; try discriminate.
  intros [= <-]. split; reflexivity.
Qed.

(** Storing an instance just made under a key that had none. *)
Lemma cacheInv_store registry c key i :
  cacheInv registry c →
  read (endpointInstances c) key = None →
  construct (read registry key) c = Normal i →
  cacheInv registry (store key i c).
Proof.
  intros (Hcached & Hmade & Hnodup) [Hnone Hkey]%read_None Hnew.
  destruct (construct_own _ _ _ _ Hkey Hnew) as [Hreg Hid].
  split_and!; simpl.
  - intros k j Hk. destruct (decide (key = k)) as [<-|Hne].
    + rewrite lookup_insert_eq in Hk. injection Hk as <-.
      split_and!; [exact Hkey | exact Hreg |].
      apply elem_of_app. right. apply list_elem_of_singleton. reflexivity.
    + rewrite lookup_insert_ne in Hk by exact Hne.
      destruct (Hcached k j Hk) as (Hp & Hr & Hin). split_and!; [exact Hp | exact Hr |].
      apply elem_of_app. left. exact Hin.
  - intros k n Hin. apply elem_of_app in Hin as [Hin|Hin].
    + destruct (Hmade k n Hin) as (j & Hj & Hn).
      assert (key ≠ k) by (intros ->; congruence).
      exists j. rewrite lookup_insert_ne by assumption. split; assumption.
    + apply list_elem_of_singleton in Hin. injection Hin as -> ->.
      exists i. rewrite lookup_insert_eq. split; reflexivity.
  - rewrite fmap_app. apply NoDup_app. split_and!; [exact Hnodup| |apply NoDup_singleton].
    intros k Hk Hk'. simpl in Hk'. apply list_elem_of_singleton in Hk' as ->.
    apply list_elem_of_fmap in Hk as ([k n] & Heq & Hin). simpl in Heq. subst k.
    destruct (Hmade key n Hin) as (j & Hj & _). congruence.
Qed.

(** Writing a field of a cached instance leaves the invariant. *)
Lemma cacheInv_update registry c key i j :
  cacheInv registry c →
  endpointInstances c !! key = Some i →
  inst_id j = inst_id i → inst_class j = inst_class i →
  cacheInv registry {| endpointInstances := <[key := j]> (endpointInstances c);
                       constructed := constructed c |}.
Proof.
  intros (Hcached & Hmade & Hnodup) Hi Hid Hcls.
  split_and!; simpl; [| |exact Hnodup].
  - intros k x Hk. destruct (decide (key = k)) as [<-|Hne].
    + rewrite lookup_insert_eq in Hk. injection Hk as <-. rewrite Hid, Hcls.
      apply Hcached. exact Hi.
    + rewrite lookup_insert_ne in Hk by exact Hne. apply Hcached. exact Hk.
  - intros k n Hin. destruct (Hmade k n Hin) as (x & Hx & Hn).
    destruct (decide (key = k)) as [<-|Hne].
    + exists j. rewrite lookup_insert_eq. split; [reflexivity|]. congruence.
    + exists x. rewrite lookup_insert_ne by exact Hne. split; assumption.
Qed.

(** Under the invariant a read of the cache finds an instance exactly
    under the keys that have one, and an inherited member exactly under
    the names of the members of [Object.prototype]. *)
Lemma cacheInv_read registry c key :
  cacheInv registry c →
  read (endpointInstances c) key =
  if protoMember key then Some (Inherited key) else Own <$> endpointInstances c !! key.
Proof.
  intros (Hcached & _ & _). unfold read.
  destruct (endpointInstances c !! key) as [i|] eqn:Hi.
  - destruct (Hcached _ _ Hi) as (-> & _). reflexivity.
  - destruct (protoMember key); reflexivity.
Qed.

Lemma filter_key_fresh (key : string) (l : list (string * nat)) :
  key ∉ l.*1 → filter (λ e, e.1 = key) l = [].
Proof.
  induction l as [|[k m] l IH]; intros Hfresh; [reflexivity|].
  rewrite fmap_cons in Hfresh. apply not_elem_of_cons in Hfresh as [Hne Hfresh].
  simpl in Hne. rewrite filter_cons_False by (simpl; congruence). apply IH. exact Hfresh.
Qed.

Lemma filter_key_once (key : string) (n : nat) (l : list (string * nat)) :
  NoDup l.*1 → (key, n) ∈ l → length (filter (λ e, e.1 = key) l) = 1.
Proof.
  induction l as [|[k m] l IH]; intros Hnodup Hin.
  - apply not_elem_of_nil in Hin. contradiction.
  - rewrite fmap_cons in Hnodup. apply NoDup_cons in Hnodup as [Hfresh Hnodup].
    simpl in Hfresh. apply elem_of_cons in Hin as [Heq|Hin].
    + injection Heq as <- <-. rewrite filter_cons_True by reflexivity.
      rewrite filter_key_fresh by exact Hfresh. reflexivity.
    + assert (k ≠ key).
      { intros ->. apply Hfresh. apply list_elem_of_fmap. exists (key, n). split; done. }
      rewrite filter_cons_False by (simpl; congruence). apply IH; assumption.
Qed.

(** Under the invariant, a cached key has had exactly one instance made,
    and a key that is not cached none. *)
Lemma constructions_cached registry c key i :
  cacheInv registry c →
  endpointInstances c !! key = Some i →
  constructions key c = 1.
Proof.
  intros (Hcached & _ & Hnodup) Hi.
  destruct (Hcached key i Hi) as (_ & _ & Hin).
  apply (filter_key_once key (inst_id i)); assumption.
Qed.

Lemma constructions_not_cached registry c key :
  cacheInv registry c →
  endpointInstances c !! key = None →
  constructions key c = 0.
Proof.
  intros (_ & Hmade & _) Hnone. unfold constructions.
  rewrite filter_key_fresh; [reflexivity|].
  intros Hin. apply list_elem_of_fmap in Hin as ([k n] & Heq & Hin). simpl in Heq. subst k.
  destruct (Hmade key n Hin) as (j & Hj & _). congruence.
Qed.

Lemma constructions_le registry c key :
  cacheInv registry c → constructions key c ≤ 1.
Proof.
  intros Hinv. destruct (endpointInstances c !! key) as [i|] eqn:Hk.
  - erewrite constructions_cached; [lia | exact Hinv | exact Hk].
  - erewrite constructions_not_cached; [lia | exact Hinv | exact Hk].
Qed.

End Cache.
(** ** The resolver *)

Module Resolver.
Import Client ClientSpec.

(** Only the first of [resolve] and [reject] settles the promise. *)
Lemma settle_once (p q : promise) (o : CallOptions) :
  settle p (o, q) = (Normal (), (o, if q is Pending then p else q)).
Proof. destruct q; reflexivity. Qed.

(** [loadClientOptions] in one step. *)
Lemma loadClientOptions_run (o : CallOptions) :
  loadClientOptions (o, Pending) =
  (Normal (builtOptions o),
   (afterRemote o,
    if supported (methodOrGet o) then Pending
    else Rejected (failure 405 "method not supported"))).
Proof.
  unfold loadClientOptions, loadRequestMethod, builtOptions, afterRemote, supported.
  destruct o as [key m ps ct pa]. run.
  destruct ct as [ct|]; [destruct (Str.nonEmpty ct)|]; run;
    change (methodOrGet {| endpoint := key; method := m; params := ps;
                           contentType := _; parser := _ |})
      with (methodOrGet {| endpoint := key; method := m; params := ps;
                           contentType := None; parser := pa |});
    set (v := methodOrGet _);
    destruct (bool_decide (v = "get" ∨ v = "delete")); simpl; try reflexivity;
    destruct (bool_decide (v = "put" ∨ v = "post")); reflexivity.
Qed.

(** [callRemote] in one step: the promise and the call options. *)
Lemma callRemote_run self ep (o : CallOptions) :
  callRemote self ep o = (Normal (remoteOutcome self o), afterRemote o).
Proof.
  unfold callRemote, newPromise, request, remoteOutcome.
  cbv [mbind mret M_bind M_ret Js.bind Js.ret Js.catch Js.gets Js.throw].
  rewrite loadClientOptions_run. cbn [fst snd].
  change (endpoint (afterRemote o)) with (endpoint o).
  change (co_method (builtOptions o)) with (Some (methodOrGet o)).
  destruct (supported (methodOrGet o));
    destruct (restClient self (Some (methodOrGet o)) (read (endpoints self) (endpoint o))
                (builtOptions o)) as [body|err|]; try reflexivity;
    unfold onResponse;
    cbv [mbind mret M_bind M_ret Js.bind Js.ret Js.catch Js.gets Js.throw Js.lift];
    destruct (returnToParser body); reflexivity.
Qed.

(** [callLocal] in one step: where the read of the cache finds
    something, nothing is made; where it finds nothing, an instance is
    made and stored, or [new] throws. *)
Lemma callLocal_run self ep (c : cache) (o : CallOptions) :
  callLocal self ep (c, o) =
  match read (endpointInstances c) (endpoint o) with
  | Some _ => (Normal (invokeLocal c (afterLocal o)), (c, afterLocal o))
  | None =>
      match construct ep c with
      | Normal i =>
          (Normal (invokeLocal (store (endpoint o) i c) (afterLocal o)),
           (store (endpoint o) i c, afterLocal o))
      | Throw e => (Throw e, (c, afterLocal o))
      end
  end.
Proof.
  unfold callLocal. run. fold (afterLocal o).
  destruct (read (endpointInstances c) (endpoint o)) as [i|]; [reflexivity|].
  run. destruct (construct ep c); reflexivity.
Qed.

(** [call] in one step. *)
Lemma call_run self (c : cache) (o : CallOptions) :
  call self (c, o) =
  match read (endpoints self) (endpoint o) with
  | Some (Own (Remote _)) => (Normal (remoteOutcome self o), (c, afterRemote o))
  | d => callLocal self d (c, o)
  end.
Proof.
  unfold call. run.
  destruct (read (endpoints self) (endpoint o)) as [[[url|cls]|name]|] eqn:Hd;
    try reflexivity.
  cbv [Js.zoom]. cbn [fst snd]. rewrite callRemote_run. reflexivity.
Qed.

(** The read of the registry [call] branches on, by the own property. *)
Lemma call_run_own self (c : cache) (o : CallOptions) :
  call self (c, o) =
  match endpoints self !! endpoint o with
  | Some (Remote _) => (Normal (remoteOutcome self o), (c, afterRemote o))
  | _ => callLocal self (read (endpoints self) (endpoint o)) (c, o)
  end.
Proof.
  rewrite call_run. unfold read.
  destruct (endpoints self !! endpoint o) as [[url|cls]|]; try reflexivity.
  destruct (protoMember (endpoint o)); reflexivity.
Qed.

(** What a call does to the instance cache. *)
Lemma call_cache self (c : cache) (o : CallOptions) :
  (call self (c, o)).2.1 =
  match read (endpointInstances c) (endpoint o),
        construct (read (endpoints self) (endpoint o)) c with
  | None, Normal i => store (endpoint o) i c
  | _, _ => c
  end.
Proof.
  rewrite call_run.
  destruct (read (endpoints self) (endpoint o)) as [[[url|cls]|name]|] eqn:Hd;
    try (rewrite callLocal_run;
         destruct (read (endpointInstances c) (endpoint o)); [reflexivity|];
         destruct (construct _ c); reflexivity).
  simpl. destruct (read (endpointInstances c) (endpoint o)); reflexivity.
Qed.

Lemma step_cacheInv self c c' :
  CacheSpec.cacheInv (endpoints self) c → step self c c' →
  CacheSpec.cacheInv (endpoints self) c'.
Proof.
  intros Hinv [o ->]. rewrite call_cache.
  destruct (read (endpointInstances c) (endpoint o)) eqn:Hc; [exact Hinv|].
  destruct (construct (read (endpoints self) (endpoint o)) c) as [i|e] eqn:Hnew;
    [|exact Hinv].
  apply Cache.cacheInv_store; assumption.
Qed.

(** A call never evicts: what is cached stays cached, the same instance. *)
Lemma step_keeps self c c' key i :
  step self c c' →
  endpointInstances c !! key = Some i → endpointInstances c' !! key = Some i.
Proof.
  intros [o ->] Hi. rewrite call_cache.
  destruct (read (endpointInstances c) (endpoint o)) eqn:Hc; [exact Hi|].
  destruct (construct (read (endpoints self) (endpoint o)) c) as [j|e]; [|exact Hi].
  apply Cache.read_None in Hc as [Hc _].
  simpl. rewrite lookup_insert_ne; [exact Hi|]. intros Heq. congruence.
Qed.

Lemma steps_keep self c c' key i :
  rtc (step self) c c' →
  endpointInstances c !! key = Some i → endpointInstances c' !! key = Some i.
Proof. induction 1; [done|]. intros Hi. eauto using step_keeps. Qed.

Lemma steps_cacheInv self c c' :
  CacheSpec.cacheInv (endpoints self) c → rtc (step self) c c' →
  CacheSpec.cacheInv (endpoints self) c'.
Proof. intros Hinv Hsteps. induction Hsteps; eauto using step_cacheInv. Qed.

Lemma reachable_cacheInv self c :
  reachable self c → CacheSpec.cacheInv (endpoints self) c.
Proof. apply steps_cacheInv, Cache.cacheInv_empty. Qed.

(** [call] on a key the registry does not have. *)
Lemma call_absent self c o :
  CacheSpec.cacheInv (endpoints self) c →
  endpoints self !! endpoint o = None →
  call self (c, o) =
  if protoMember (endpoint o)
  then (Normal (Rejected (TypeError "endpointInstances[endpoint][method] is not a function")),
        (c, afterLocal o))
  else (Throw (TypeError "undefined is not a constructor"), (c, afterLocal o)).
Proof.
  intros Hinv Habsent.
  rewrite call_run_own, Habsent, callLocal_run, (Cache.cacheInv_read _ _ _ Hinv).
  destruct Hinv as (Hcached & _ & _).
  destruct (protoMember (endpoint o)) eqn:Hproto.
  - unfold invokeLocal. change (endpoint (afterLocal o)) with (endpoint o).
    unfold read at 1.
    destruct (endpointInstances c !! endpoint o) as [i|] eqn:Hi.
    + destruct (Hcached _ _ Hi) as (Hp & _). congruence.
    + rewrite Hproto. reflexivity.
  - destruct (endpointInstances c !! endpoint o) as [i|] eqn:Hi.
    + destruct (Hcached _ _ Hi) as (_ & Hreg & _). congruence.
    + unfold read. rewrite Habsent, Hproto. reflexivity.
Qed.

(** C3, amended: for every call request whose endpoint key is absent
    from the registry, [call] settles with no failure of status 404.
    Where the key names no member of [Object.prototype], the lookup
    yields [undefined], [new] on it throws a [TypeError] synchronously
    and no promise is returned.  Where the key names such a member, the
    lookup yields the inherited member, which the cache inherits as
    well: it is taken for a cached instance, no [new] runs, and the
    promise [call] returns is rejected with the error of the method
    call, which fails.  In both cases the instance cache is left as it
    was, and the call options have had [method] and [parser] written. *)
Theorem call_absent_endpoint_unsettled self (c : cache) (o : CallOptions) :
  reachable self c →
  endpoints self !! endpoint o = None →
  let out := call self (c, o) in
  (protoMember (endpoint o) = false →
     out = (Throw (TypeError "undefined is not a constructor"), (c, afterLocal o))) ∧
  (protoMember (endpoint o) = true →
     out = (Normal (Rejected
                      (TypeError "endpointInstances[endpoint][method] is not a function")),
            (c, afterLocal o))) ∧
  ¬ settlesWithFailure 404 out.1.
Proof.
  intros Hreach Habsent out. subst out.
  rewrite (call_absent _ _ _ (reachable_cacheInv self c Hreach) Habsent).
  destruct (protoMember (endpoint o)); split_and!; try discriminate; try reflexivity.
  - intros (e & Heq & Hstatus). injection Heq as <-. discriminate Hstatus.
  - intros (e & Heq & _). discriminate Heq.
Qed.

Lemma call_absent_endpoint_unsettled_witness :
  call (App.api VNull) (emptyCache, App.options "constructor") =
    (Normal (Rejected (TypeError "endpointInstances[endpoint][method] is not a function")),
     (emptyCache, afterLocal (App.options "constructor"))).
Proof.
  apply (call_absent_endpoint_unsettled (App.api VNull) emptyCache (App.options "constructor")).
  - apply rtc_refl.
  - reflexivity.
  - reflexivity.
Defined.

(** C3 as stated fails: a call to a key the registry does not have
    settles with no failure of status 404; it throws. *)
Lemma call_absent_endpoint_no_404 :
  Client.endpoints (App.api VNull) !! "nowhere" = None ∧
  (call (App.api VNull) (emptyCache, App.options "nowhere")).1 =
    Throw (TypeError "undefined is not a constructor") ∧
  ¬ settlesWithFailure 404 (call (App.api VNull) (emptyCache, App.options "nowhere")).1.
Proof.
  assert (Hcall : (call (App.api VNull) (emptyCache, App.options "nowhere")).1 =
                  Throw (TypeError "undefined is not a constructor"))
    by (vm_compute; reflexivity).
  split; [reflexivity|]. split; [exact Hcall|].
  rewrite Hcall. intros (e & Heq & _). discriminate Heq.
Qed.

(** C9, amended: [call] writes to the call-options object of the caller.
    A remote call deletes a truthy [Content-Type] from it and writes
    [parser] (the identity when there was none); every other call writes
    [method] (['get'] when there was none) and [parser].  The keys
    [endpoint] and [params] are left as they were.  Beyond that a remote
    call leaves the instance cache as it was, and any call leaves the
    cache as it was under every key but its own. *)
Theorem call_writes_call_options self (c : cache) (o : CallOptions) :
  let out := call self (c, o) in
  out.2.2 =
    match endpoints self !! endpoint o with
    | Some (Remote _) => afterRemote o
    | _ => afterLocal o
    end ∧
  (∀ url, endpoints self !! endpoint o = Some (Remote url) → out.2.1 = c) ∧
  (∀ key, key ≠ endpoint o →
          endpointInstances out.2.1 !! key = endpointInstances c !! key).
Proof.
  cbv zeta. split_and!.
  - rewrite call_run_own.
    destruct (endpoints self !! endpoint o) as [[url|cls]|]; try reflexivity;
      rewrite callLocal_run;
      destruct (read (endpointInstances c) (endpoint o)); try reflexivity;
      destruct (construct _ c); reflexivity.
  - intros url Hd. rewrite call_run_own, Hd. reflexivity.
  - intros key Hne. rewrite call_cache.
    destruct (read (endpointInstances c) (endpoint o)); [reflexivity|].
    destruct (construct _ c); [|reflexivity].
    simpl. apply lookup_insert_ne. congruence.
Qed.

Lemma call_writes_call_options_witness :
  (call (App.api VNull) (emptyCache, App.options "messages")).2.1 = emptyCache.
Proof.
  destruct (call_writes_call_options (App.api VNull) emptyCache (App.options "messages"))
    as (_ & Hremote & _).
  apply (Hremote "https://example.org/api/messages"). reflexivity.
Defined.

(** C9 as stated fails: a remote call deletes the [Content-Type] of the
    call options and writes a [parser] into them. *)
Lemma call_options_changed :
  let o := App.options "messages" in
  let o' := (call (App.api VNull) (emptyCache, o)).2.2 in
  contentType o = Some "text/plain" ∧ contentType o' = None ∧
  parser o = None ∧ parser o' = Some identity ∧
  o' ≠ o.
Proof.
  cbv zeta. split_and!; try reflexivity.
  intros Heq. apply (f_equal contentType) in Heq. discriminate Heq.
Qed.

(** What [callRemote] takes from an object body: the value under
    [data] when that is truthy, the body otherwise. *)
Lemma returnToParser_object (props : gmap string value) :
  returnToParser (VObj props) =
  Normal match props !! "data" with
         | Some d => if truthy d then d else VObj props
         | None => VObj props
         end.
Proof.
  unfold returnToParser. simpl. destruct (props !! "data") as [d|]; reflexivity.
Qed.

(** A local call to a registered class, under a key that names no member
    of [Object.prototype]: the instance is taken from the cache or made,
    and its method is called. *)
Lemma call_local self c o cls :
  CacheSpec.cacheInv (endpoints self) c →
  endpoints self !! endpoint o = Some (Local cls) →
  protoMember (endpoint o) = false →
  ∃ i c', call self (c, o) = (Normal (invokeLocal c' (afterLocal o)), (c', afterLocal o)) ∧
          endpointInstances c' !! endpoint o = Some i ∧ inst_class i = cls ∧
          (is_Some (endpointInstances c !! endpoint o) → c' = c).
Proof.
  intros Hinv Hd Hproto.
  rewrite call_run_own, Hd, callLocal_run, (Cache.cacheInv_read _ _ _ Hinv), Hproto.
  destruct Hinv as (Hcached & _ & _).
  destruct (endpointInstances c !! endpoint o) as [i|] eqn:Hi; simpl.
  - exists i, c. destruct (Hcached _ _ Hi) as (_ & Hreg & _).
    split_and!; [reflexivity | exact Hi | congruence | done].
  - rewrite Cache.read_own, Hd by exact Hproto. simpl.
    eexists _, _. split_and!; [reflexivity | apply lookup_insert_eq | reflexivity |].
    intros [? ?]. discriminate.
Qed.

(** What the executor of a local call finds under a cached key. *)
Lemma invokeLocal_cached c o i :
  endpointInstances c !! endpoint o = Some i →
  invokeLocal c o =
  match method o ≫= verbs (inst_class i) with
  | Some handle =>
      match handle (params o) None with
      | Resolves result =>
          match parser o with
          | Some parse => Fulfilled (parse result)
          | None => Rejected (TypeError "callOptions.parser is not a function")
          end
      | Rejects e => Rejected e
      end
  | None => Rejected (TypeError "endpointInstances[endpoint][method] is not a function")
  end.
Proof.
  intros Hi. unfold invokeLocal. rewrite (proj2 (Cache.read_Own _ _ _) Hi). reflexivity.
Qed.

(** The two dispatch paths agree on a truthy value: for the same call
    options, a resolver that has the key as a remote endpoint answering
    [{data: v}] and one that has it as a local endpoint resolving with
    [v] settle alike. *)
Lemma remote_local_agree_truthy (remoteSide localSide : client) (c c' : cache)
    (o : CallOptions) url cls handle v :
  endpoints remoteSide !! endpoint o = Some (Remote url) →
  endpoints localSide !! endpoint o = Some (Local cls) →
  protoMember (endpoint o) = false →
  CacheSpec.cacheInv (endpoints localSide) c' →
  supported (methodOrGet o) = true →
  restClient remoteSide (Some (methodOrGet o)) (Some (Own (Remote url))) (builtOptions o)
    = Response (VObj {[ "data" := v ]}) →
  verbs cls (methodOrGet o) = Some handle →
  handle (params o) None = Resolves v →
  truthy v = true →
  (call remoteSide (c, o)).1 = Normal (Fulfilled (parserOrIdentity o v)) ∧
  (call localSide (c', o)).1 = Normal (Fulfilled (parserOrIdentity o v)).
Proof.
  intros Hr Hl Hproto Hinv Hsup Hnet Hverb Hres Hv. split.
  - rewrite call_run_own, Hr. simpl. unfold remoteOutcome.
    rewrite Hsup. unfold read at 1. rewrite Hr, Hnet.
    rewrite returnToParser_object, lookup_singleton_eq, Hv. reflexivity.
  - destruct (call_local _ _ _ _ Hinv Hl Hproto) as (i & c'' & -> & Hi & Hcls & _).
    cbn [fst]. rewrite (invokeLocal_cached _ _ i) by exact Hi.
    cbn [afterLocal method params parser mbind option_bind].
    rewrite Hcls, Hverb, Hres. reflexivity.
Qed.

(** C4, at the failing input: the response body [{"data": 0}] has the
    [data] key, yet the raw result is the whole body, not the value 0
    under the key, and so is the success value of the call. *)
Theorem remote_falsy_data_not_unwrapped :
  let body := VObj {[ "data" := VNum 0 ]} in
  hasOwnProperty body "data" = Normal true ∧
  get body "data" = Normal (VNum 0) ∧
  returnToParser body = Normal body ∧
  (call (App.api body) (emptyCache, App.options "messages")).1 = Normal (Fulfilled body) ∧
  body ≠ VNum 0.
Proof.
  cbv zeta. split_and!; [reflexivity | reflexivity | reflexivity | | discriminate].
  vm_compute. reflexivity.
Qed.

(** C5, at the failing input [v = 0]: with [counter] registered as a
    URL whose server answers [{"data": 0}] the call settles with the body
    [{data: 0}]; with [counter] registered as a local handler whose [get]
    resolves with 0 the same call settles with 0.  The caller can tell
    the two apart. *)
Theorem remote_local_differ_on_zero :
  let body := VObj {[ "data" := VNum 0 ]} in
  let o := App.options "counter" in
  (call (App.remoteApi body) (emptyCache, o)).1 = Normal (Fulfilled body) ∧
  (call (App.api body) (emptyCache, o)).1 = Normal (Fulfilled (VNum 0)) ∧
  (call (App.remoteApi body) (emptyCache, o)).1 ≠ (call (App.api body) (emptyCache, o)).1.
Proof.
  cbv zeta.
  assert (Hr : (call (App.remoteApi (VObj {[ "data" := VNum 0 ]}))
                  (emptyCache, App.options "counter")).1 =
               Normal (Fulfilled (VObj {[ "data" := VNum 0 ]}))) by (vm_compute; reflexivity).
  assert (Hl : (call (App.api (VObj {[ "data" := VNum 0 ]}))
                  (emptyCache, App.options "counter")).1 =
               Normal (Fulfilled (VNum 0))) by (vm_compute; reflexivity).
  split_and!; [exact Hr | exact Hl |]. rewrite Hr, Hl. discriminate.
Qed.

End Resolver.
(** ** The handler instances *)

Module Caching.
Import CacheSpec.

(** [getEndpoint] in one step. *)
Lemma getEndpoint_run (self : Server.server) path (c : cache) :
  Server.getEndpoint self path c =
  match read (endpointInstances c) path with
  | Some endpoint => (Normal endpoint, c)
  | None =>
      match construct (read (Server.endpoints self) path) c with
      | Normal i =>
          let j := {| inst_id := inst_id i; inst_class := inst_class i;
                      inst_log := Some (Server.log self) |} in
          (Normal (Own j),
           {| endpointInstances := <[path := j]> (endpointInstances (store path i c));
              constructed := constructed (store path i c) |})
      | Throw e => (Throw e, c)
      end
  end.
Proof.
  unfold Server.getEndpoint. run.
  destruct (read (endpointInstances c) path) as [i|]; [reflexivity|].
  run. destruct (construct (read (Server.endpoints self) path) c); reflexivity.
Qed.

(** A dispatch touches the cache through [getEndpoint] only. *)
Lemma dispatch_cache (self : Server.server) path method req (c : cache) :
  ServerSpec.dispatch self path method req c = (Server.getEndpoint self path c).2.
Proof.
  unfold ServerSpec.dispatch. rewrite Encoding.processEndpoint_run.
  destruct (Server.getEndpoint self path c) as [[endpoint|e] c']; [|reflexivity].
  destruct (methodOf endpoint method) as [handle|]; [|reflexivity].
  set (settles := handle _ _). destruct settles as [result|e].
  - destruct (Server.respondWithSuccess result []) as [[u|e] res]; [reflexivity|].
    destruct (Server.respondWithError self e res) as [[u|e'] res']; reflexivity.
  - destruct (Server.respondWithError self e []) as [[u|e'] res']; reflexivity.
Qed.

Lemma server_step_cacheInv (self : Server.server) c c' :
  cacheInv (Server.endpoints self) c → ServerSpec.step self c c' →
  cacheInv (Server.endpoints self) c'.
Proof.
  intros Hinv (path & method & req & ->). rewrite dispatch_cache, getEndpoint_run.
  destruct (read (endpointInstances c) path) eqn:Hc; [exact Hinv|].
  destruct (construct (read (Server.endpoints self) path) c) as [i|e] eqn:Hnew;
    [|exact Hinv].
  simpl. apply (Cache.cacheInv_update _ (store path i c) path i); try reflexivity.
  - apply Cache.cacheInv_store; assumption.
  - simpl. apply lookup_insert_eq.
Qed.

(** A dispatch never evicts: what is cached stays cached, the same
    instance. *)
Lemma server_step_keeps (self : Server.server) c c' key i :
  ServerSpec.step self c c' →
  endpointInstances c !! key = Some i → endpointInstances c' !! key = Some i.
Proof.
  intros (path & method & req & ->) Hi. rewrite dispatch_cache, getEndpoint_run.
  destruct (read (endpointInstances c) path) eqn:Hc; [exact Hi|].
  destruct (construct (read (Server.endpoints self) path) c) as [j|e]; [|exact Hi].
  apply Cache.read_None in Hc as [Hc _].
  simpl. assert (path ≠ key) by congruence.
  rewrite !lookup_insert_ne by assumption. exact Hi.
Qed.

Lemma server_steps_keep (self : Server.server) c c' key i :
  rtc (ServerSpec.step self) c c' →
  endpointInstances c !! key = Some i → endpointInstances c' !! key = Some i.
Proof. induction 1; [done|]. intros Hi. eauto using server_step_keeps. Qed.

Lemma server_steps_cacheInv (self : Server.server) c c' :
  cacheInv (Server.endpoints self) c → rtc (ServerSpec.step self) c c' →
  cacheInv (Server.endpoints self) c'.
Proof. intros Hinv Hsteps. induction Hsteps; eauto using server_step_cacheInv. Qed.

Lemma router_reachable_cacheInv self c :
  ServerSpec.reachable self c → cacheInv (Server.endpoints self) c.
Proof. apply server_steps_cacheInv, Cache.cacheInv_empty. Qed.

(** [getEndpoint] on a registered class, under a key that names no
    member of [Object.prototype]: the instance is taken from the cache,
    or made and stored. *)
Lemma getEndpoint_local (self : Server.server) key cls c :
  Server.endpoints self !! key = Some (Local cls) →
  protoMember key = false →
  cacheInv (Server.endpoints self) c →
  ∃ i c', Server.getEndpoint self key c = (Normal (Own i), c') ∧
          endpointInstances c' !! key = Some i ∧ inst_class i = cls ∧
          (is_Some (endpointInstances c !! key) → c' = c).
Proof.
  intros Hreg Hproto Hinv.
  rewrite getEndpoint_run, (Cache.cacheInv_read _ _ _ Hinv), Hproto.
  destruct Hinv as (Hcached & _ & _).
  destruct (endpointInstances c !! key) as [i|] eqn:Hi; simpl.
  - exists i, c. destruct (Hcached _ _ Hi) as (_ & Hr & _).
    split_and!; [reflexivity | exact Hi | congruence | done].
  - rewrite Cache.read_own, Hreg by exact Hproto. simpl.
    eexists _, _. split_and!; [reflexivity | apply lookup_insert_eq | reflexivity |].
    intros [? ?]. discriminate.
Qed.

(** A dispatch to a registered local key leaves an instance of its class
    in the cache. *)
Lemma dispatch_caches (self : Server.server) key cls method req c :
  Server.endpoints self !! key = Some (Local cls) →
  protoMember key = false →
  cacheInv (Server.endpoints self) c →
  ∃ i, endpointInstances (ServerSpec.dispatch self key method req c) !! key = Some i ∧
       inst_class i = cls.
Proof.
  intros Hreg Hproto Hinv. rewrite dispatch_cache.
  destruct (getEndpoint_local self key cls c Hreg Hproto Hinv) as (i & c' & -> & Hi & Hcls & _).
  exists i. split; assumption.
Qed.

Lemma call_caches (self : Client.client) cls (o : Client.CallOptions) c :
  Client.endpoints self !! Client.endpoint o = Some (Local cls) →
  protoMember (Client.endpoint o) = false →
  cacheInv (Client.endpoints self) c →
  ∃ i, endpointInstances (Client.call self (c, o)).2.1 !! Client.endpoint o = Some i ∧
       inst_class i = cls.
Proof.
  intros Hreg Hproto Hinv.
  destruct (Resolver.call_local self c o cls Hinv Hreg Hproto) as (i & c' & -> & Hi & Hcls & _).
  exists i. split; assumption.
Qed.

(** A request moves the cache of the router by dispatches only. *)
Lemma serve_steps (self : Server.server) method req c :
  rtc (ServerSpec.step self) c (Server.serve self method req c).2.1.
Proof.
  rewrite Resolution.serve_run.
  destruct (Server.matchApi (originalUrl req)) as [apiUrl|]; [|apply rtc_refl].
  destruct (Server.findEndpoint self _) as [checkPath|]; [|apply rtc_refl].
  apply rtc_once. exists checkPath, method, req. reflexivity.
Qed.

(** Each of the two caches of a process is in a state its owner
    reaches. *)
Lemma process_reachable srv cl s :
  ProcessSpec.reachable srv cl s →
  ServerSpec.reachable srv s.1 ∧ ClientSpec.reachable cl s.2.
Proof.
  intros Hreach. unfold ProcessSpec.reachable in Hreach. revert s Hreach.
  apply (rtc_ind_r (λ s : ProcessSpec.state,
                      ServerSpec.reachable srv s.1 ∧ ClientSpec.reachable cl s.2));
    [split; apply rtc_refl|].
  intros s1 s2 _ Hstep [Hsrv Hcl]. destruct Hstep as [path method req s1 | o s1]; simpl.
  - split; [|exact Hcl]. eapply rtc_r; [exact Hsrv|]. do 3 eexists. reflexivity.
  - split; [exact Hsrv|]. eapply rtc_r; [exact Hcl|]. eexists. reflexivity.
Qed.

(** C8, amended: a registered local key that names no member of
    [Object.prototype], under sequential dispatch, for each owner of an
    instance cache.  The first dispatch to the key leaves an instance of
    its class in the cache of the owner; in every state the owner goes
    through afterwards that same instance is the one cached under the
    key (it is never evicted), a further dispatch to the key takes it
    from the cache and leaves the cache as it is, and [new] has run
    exactly once under the key.  In every state an owner goes through,
    [new] has run at most once under a key.  This holds of the router
    ([getEndpoint]) and of the resolver ([callLocal]), each with its own
    cache: in a process that has both, [new] has run at most twice under
    a key. *)
Theorem handler_instance_reused (srv : Server.server) (cl : Client.client) key cls :
  Server.endpoints srv !! key = Some (Local cls) →
  Client.endpoints cl !! key = Some (Local cls) →
  protoMember key = false →
  (∀ c method req c',
     ServerSpec.reachable srv c →
     rtc (ServerSpec.step srv) (ServerSpec.dispatch srv key method req c) c' →
     ∃ i, endpointInstances (ServerSpec.dispatch srv key method req c) !! key = Some i ∧
          inst_class i = cls ∧
          endpointInstances c' !! key = Some i ∧
          Server.getEndpoint srv key c' = (Normal (Own i), c') ∧
          (∀ method' req', ServerSpec.dispatch srv key method' req' c' = c') ∧
          constructions key c' = 1) ∧
  (∀ c o c',
     ClientSpec.reachable cl c → Client.endpoint o = key →
     rtc (ClientSpec.step cl) (Client.call cl (c, o)).2.1 c' →
     ∃ i, endpointInstances (Client.call cl (c, o)).2.1 !! key = Some i ∧
          inst_class i = cls ∧
          endpointInstances c' !! key = Some i ∧
          (∀ o', Client.endpoint o' = key → (Client.call cl (c', o')).2.1 = c') ∧
          constructions key c' = 1) ∧
  (∀ c k, ServerSpec.reachable srv c → constructions k c ≤ 1) ∧
  (∀ c k, ClientSpec.reachable cl c → constructions k c ≤ 1) ∧
  (∀ s k, ProcessSpec.reachable srv cl s → ProcessSpec.constructions k s ≤ 2).
Proof.
  intros Hsrv Hcl Hproto. split_and!.
  - intros c method req c' Hreach Hsteps.
    pose proof (router_reachable_cacheInv _ _ Hreach) as Hinv.
    destruct (dispatch_caches srv key cls method req c Hsrv Hproto Hinv) as (i & Hi & Hcls).
    assert (Hinv1 : cacheInv (Server.endpoints srv) (ServerSpec.dispatch srv key method req c))
      by (eapply server_step_cacheInv; [exact Hinv | do 3 eexists; reflexivity]).
    pose proof (server_steps_keep _ _ _ _ _ Hsteps Hi) as Hi'.
    pose proof (server_steps_cacheInv _ _ _ Hinv1 Hsteps) as Hinv'.
    assert (Hread : read (endpointInstances c') key = Some (Own i))
      by (apply Cache.read_Own; exact Hi').
    exists i. split_and!; try assumption.
    + rewrite getEndpoint_run, Hread. reflexivity.
    + intros method' req'. rewrite dispatch_cache, getEndpoint_run, Hread. reflexivity.
    + eapply Cache.constructions_cached; eassumption.
  - intros c o c' Hreach <- Hsteps.
    pose proof (Resolver.reachable_cacheInv _ _ Hreach) as Hinv.
    destruct (call_caches cl cls o c Hcl Hproto Hinv) as (i & Hi & Hcls).
    assert (Hinv1 : cacheInv (Client.endpoints cl) (Client.call cl (c, o)).2.1)
      by (eapply Resolver.step_cacheInv; [exact Hinv | eexists; reflexivity]).
    pose proof (Resolver.steps_keep _ _ _ _ _ Hsteps Hi) as Hi'.
    pose proof (Resolver.steps_cacheInv _ _ _ Hinv1 Hsteps) as Hinv'.
    exists i. split_and!; try assumption.
    + intros o' Ho'. rewrite Resolver.call_cache, Ho'.
      rewrite (proj2 (Cache.read_Own _ _ _) Hi'). reflexivity.
    + eapply Cache.constructions_cached; eassumption.
  - intros c k Hreach.
    apply (Cache.constructions_le (Server.endpoints srv)), router_reachable_cacheInv, Hreach.
  - intros c k Hreach.
    apply (Cache.constructions_le (Client.endpoints cl)), Resolver.reachable_cacheInv, Hreach.
  - intros s k [Hs Hc]%process_reachable. unfold ProcessSpec.constructions.
    pose proof (Cache.constructions_le _ _ k (router_reachable_cacheInv _ _ Hs)).
    pose proof (Cache.constructions_le _ _ k (Resolver.reachable_cacheInv _ _ Hc)).
    lia.
Qed.

Lemma handler_instance_reused_witness :
  let c := ServerSpec.dispatch App.router "a" Get (App.getRequest "/api/a" None) emptyCache in
  ∃ i, endpointInstances c !! "a" = Some i ∧
       Server.getEndpoint App.router "a" c = (Normal (Own i), c) ∧
       constructions "a" c = 1.
Proof.
  cbv zeta.
  destruct (handler_instance_reused App.router (App.api VNull) "a" (App.resolving App.car))
    as (Hserver & _); [reflexivity | reflexivity | reflexivity |].
  destruct (Hserver emptyCache Get (App.getRequest "/api/a" None) _
              (rtc_refl _ _) (rtc_refl _ _)) as (i & Hi & _ & _ & Hget & _ & Hone).
  exists i. split_and!; [exact Hi | exact Hget | exact Hone].
Defined.

(** C8 as stated fails: the router and the resolver of one process, over
    the same registry, each make their own instance of the handler of
    [a]: after one request served by the router and one call through
    the resolver, [new] has run twice under the key in the process. *)
Lemma handler_built_twice_in_process :
  let s : ProcessSpec.state :=
    (ServerSpec.dispatch App.router "a" Get (App.getRequest "/api/a" None) emptyCache,
     (Client.call (App.api VNull) (emptyCache, App.options "a")).2.1) in
  Server.endpoints App.router = Client.endpoints (App.api VNull) ∧
  ProcessSpec.reachable App.router (App.api VNull) s ∧
  constructions "a" s.1 = 1 ∧ constructions "a" s.2 = 1 ∧
  ProcessSpec.constructions "a" s = 2 ∧
  ¬ ProcessSpec.constructions "a" s ≤ 1.
Proof.
  cbv zeta.
  assert (H1 : constructions "a"
                 (ServerSpec.dispatch App.router "a" Get (App.getRequest "/api/a" None)
                    emptyCache) = 1) by (vm_compute; reflexivity).
  assert (H2 : constructions "a"
                 (Client.call (App.api VNull) (emptyCache, App.options "a")).2.1 = 1)
    by (vm_compute; reflexivity).
  split_and!; [reflexivity | | exact H1 | exact H2 | |].
  - eapply rtc_l; [apply (ProcessSpec.step_dispatch _ _ "a" Get (App.getRequest "/api/a" None))|].
    eapply rtc_l; [apply (ProcessSpec.step_call _ _ (App.options "a"))|].
    apply rtc_refl.
  - unfold ProcessSpec.constructions. cbn [fst snd]. rewrite H1, H2. reflexivity.
  - unfold ProcessSpec.constructions. cbn [fst snd]. rewrite H1, H2. lia.
Qed.

End Caching.

(** * Further properties of the two classes *)

(** ** More of the sources, and more vocabulary *)

Module More.
Import Server Spec.

(** [rawBodySaver(req, res, buf, encoding)], the [verify] hook the
    constructor hands to the JSON body parser.  [buf] is the raw body
    ([None] for [undefined]); [toString] is [Buffer.prototype.toString]. *)
Definition rawBodySaver (toString : string → list Byte.byte → string)
    (req : request) (buf : option (list Byte.byte)) (encoding : option string) : request :=
  match buf with
  | Some b =>
      if negb (length b =? 0) then
        let encoding :=
          match encoding with
          | Some e => if Str.nonEmpty e then e else "utf8"
          | None => "utf8"
          end in
        {| originalUrl := originalUrl req; baseUrl := baseUrl req; body := body req;
           query := query req; rawBody := Some (toString encoding b);
           header := header req |}
      else req
  | None => req
  end.

(** The longest prefix of [s] without white space. *)
Fixpoint firstWord (s : string) : string :=
  match s with
  | EmptyString => EmptyString
  | String c rest => if Str.isSpace c then EmptyString else String c (firstWord rest)
  end.

(** A handler class whose [get] rejects with [e] and whose [post]
    resolves with its params. *)
Definition failing (e : value) : handlerClass :=
  {| verbs := λ m,
       if String.eqb m "get" then Some (λ _ _, Rejects e)
       else if String.eqb m "post" then Some (λ params _, Resolves params)
       else None |}.

(** A router that propagates request ids and copies the header
    [X-Tenant]; [orders] fails with 404, [hook] rejects with nothing. *)
Definition strictRouter : server :=
  {| app := express5;
     endpoints :=
       <["orders" := Local (failing (failure 404 "order not found"))]>
         (<["hook" := Local (failing VUndefined)]>
            {[ "messages" := Remote "https://example.org/api/messages" ]});
     log := VStr "logger";
     includeRequestId := true;
     headerParams := ["X-Tenant"] |}.

(** [POST url] with a JSON body [{"X-Tenant": "body"}], a raw body, a
    request id and no [X-Tenant] header. *)
Definition postRequest (url : string) : request :=
  {| originalUrl := url;
     baseUrl := "/api";
     body := {[ "X-Tenant" := VStr "body" ]};
     query := ∅;
     rawBody := Some "{}";
     header := λ name, if String.eqb name "X-Request-ID" then Some "r-17" else None |}.

(** [GET /api/orders?_auth_token=forged] with the given [Authorization]
    header. *)
Definition forgedRequest (authorization : option string) : request :=
  {| originalUrl := "/api/orders?_auth_token=forged";
     baseUrl := "/api";
     body := ∅;
     query := {[ "_auth_token" := VStr "forged" ]};
     rawBody := None;
     header := λ name, if String.eqb name "Authorization" then authorization else None |}.

(** A resolver over the registry of the application whose transport
    fails every request with [err]. *)
Definition offline (err : value) : Client.client :=
  {| Client.endpoints := App.registry;
     Client.restClient := λ _ _ _, Client.TransportError err |}.

(** [{endpoint: key, method: verb, params: {id: 7}}] *)
Definition verbOptions (key verb : string) : Client.CallOptions :=
  {| Client.endpoint := key;
     Client.method := Some verb;
     Client.params := VObj {[ "id" := VNum 7 ]};
     Client.contentType := None;
     Client.parser := None |}.

End More.

(** ** The router's responses *)

Module Responses.
Import Server Spec More.

Lemma respondWithSuccess_value result res :
  (∃ e, respondWithSuccess result res = (Throw e, res)) ∨
  (∃ call, respondWithSuccess result res = (Normal (), res ++ [call]) ∧
           length (sent [call]) = 1).
Proof.
  destruct (probeable result) eqn:Hp.
  - right. destruct (Encoding.respondWithSuccess_defined result res Hp)
      as (call & Hrun & h & Hsent & _).
    exists call. split; [exact Hrun|]. rewrite Hsent. reflexivity.
  - left. destruct (Encoding.respondWithSuccess_throws result res Hp) as [m Hm]. eauto.
Qed.

(** What a status that is a 32-bit integer does on every platform. *)
Lemma takesStatus_number (a : application) n :
  (- 2 ^ 31 ≤ n < 2 ^ 31)%Z → takesStatus a (VNum n) = isStatusCode n.
Proof.
  intros Hn. destruct (isStatusCode n) eqn:Hcode.
  - apply takesStatus_code. exact Hcode.
  - destruct (takesStatus a (VNum n)) eqn:Htakes; [|reflexivity].
    rewrite (takesStatus_int32 a n Hn Htakes) in Hcode. discriminate.
Qed.

(** X1: when the handler rejects with a value other than [null] and
    [undefined], what the router does depends on the [status] of the
    value.  A status the platform takes is answered with one response:
    under that status, the body [{error: {code, message}}] made of the
    [status] and the [message] of the value, and the promise of the
    dispatch is fulfilled; so for a failure [{status, message}] whose
    status is an integer from 100 to 999, which gets the error envelope.
    A status the platform does not take makes [res.status(...).json(...)]
    throw: nothing is sent, and the promise of the dispatch is rejected;
    so for a failure whose status is another 32-bit integer, and for an
    [Error], which has no status. *)
Theorem rejection_answered_with_envelope self path method req c c' i handle e :
  getEndpoint self path c = (Normal (Own i), c') →
  verbs (inst_class i) (verbName method) = Some handle →
  handle (VObj (extractParams self method req)) (Some (metaOf req)) = Rejects e →
  nullish e = false →
  let out := processEndpoint self path method req (c, []) in
  let unanswered :=
    out.1 = Normal (Some (Rejected (RangeError "Invalid status code"))) ∧ sent out.2.2 = [] in
  (takesStatus (app self) (field e "status") = true →
     out.1 = Normal (Some (Fulfilled VUndefined)) ∧
     out.2.2 = errorCalls (field e "status") (field e "message") ∧
     sent out.2.2 =
       [HttpJson (field e "status") (errorBody (field e "status") (field e "message"))]) ∧
  (takesStatus (app self) (field e "status") = false → unanswered) ∧
  (∀ code message, e = failure code message → isStatusCode code = true →
     out.1 = Normal (Some (Fulfilled VUndefined)) ∧
     sent out.2.2 = [HttpJson (VNum code) (errorBody (VNum code) (VStr message))]) ∧
  (∀ code message, e = failure code message → (- 2 ^ 31 ≤ code < 2 ^ 31)%Z →
     isStatusCode code = false → unanswered) ∧
  (∀ message, e = VError message → unanswered).
Proof.
  intros Hget Hverb Hrej Hn out unanswered. subst unanswered out.
  rewrite Encoding.processEndpoint_run, Hget. cbn [methodOf].
  rewrite Hverb, Hrej, Encoding.respondWithError_value, Hn.
  split_and!.
  - intros ->. cbn [Encoding.answered fst snd]. rewrite app_nil_l. split_and!; reflexivity.
  - intros ->. cbn [Encoding.answered fst snd]. split; reflexivity.
  - intros code message -> Hcode. destruct (Encoding.field_failure code message) as [-> ->].
    rewrite (takesStatus_code _ _ Hcode). cbn [Encoding.answered fst snd].
    split; reflexivity.
  - intros code message -> Hint Hcode. destruct (Encoding.field_failure code message) as [-> ->].
    rewrite (takesStatus_number _ _ Hint), Hcode. split; reflexivity.
  - intros message ->. change (field (VError message) "status") with VUndefined.
    rewrite Encoding.takesStatus_undefined. split; reflexivity.
Qed.

Lemma rejection_answered_with_envelope_witness :
  let out := processEndpoint strictRouter "orders" Get (postRequest "/api/orders")
               (emptyCache, []) in
  out.1 = Normal (Some (Fulfilled VUndefined)) ∧
  sent out.2.2 = [HttpJson (VNum 404) (errorBody (VNum 404) (VStr "order not found"))].
Proof.
  apply (rejection_answered_with_envelope strictRouter "orders" Get
           (postRequest "/api/orders") emptyCache
           (getEndpoint strictRouter "orders" emptyCache).2
           {| inst_id := 0; inst_class := failing (failure 404 "order not found");
              inst_log := Some (log strictRouter) |}
           (λ _ _, Rejects (failure 404 "order not found"))
           (failure 404 "order not found"));
    reflexivity.
Defined.

(** X2: when the handler rejects with [null] or [undefined], reading
    [e.status] throws in the [catch] callback: nothing is written to the
    response object, and the promise of the dispatch is rejected with the
    [TypeError]. *)
Theorem nullish_rejection_unanswered self path method req c c' i handle e :
  getEndpoint self path c = (Normal (Own i), c') →
  verbs (inst_class i) (verbName method) = Some handle →
  handle (VObj (extractParams self method req)) (Some (metaOf req)) = Rejects e →
  nullish e = true →
  let out := processEndpoint self path method req (c, []) in
  (∃ message, out.1 = Normal (Some (Rejected (TypeError message)))) ∧
  out.2.2 = [] ∧ sent out.2.2 = [].
Proof.
  intros Hget Hverb Hrej Hn out. subst out.
  rewrite Encoding.processEndpoint_run, Hget. cbn [methodOf].
  rewrite Hverb, Hrej, Encoding.respondWithError_value, Hn.
  cbn [Encoding.answered fst snd]. split_and!; [eexists; reflexivity | reflexivity | reflexivity].
Qed.

Lemma nullish_rejection_unanswered_witness :
  (processEndpoint strictRouter "hook" Get (postRequest "/api/hook") (emptyCache, [])).2.2 = [].
Proof.
  apply (nullish_rejection_unanswered strictRouter "hook" Get
           (postRequest "/api/hook") emptyCache
           (getEndpoint strictRouter "hook" emptyCache).2
           {| inst_id := 0; inst_class := failing VUndefined;
              inst_log := Some (log strictRouter) |}
           (λ _ _, Rejects VUndefined) VUndefined);
    reflexivity.
Defined.

(** X3: a request for a verb the handler of a registered local key does
    not have is answered with status 405 and the message
    [method not available]; [processEndpoint] returns nothing.  The
    handler has been instantiated and cached all the same, unless the
    key is the name of a member of [Object.prototype]: then the cache
    is left as it was. *)
Theorem missing_verb_answered_405 self path method req c cls :
  ServerSpec.reachable self c →
  endpoints self !! path = Some (Local cls) →
  verbs cls (verbName method) = None →
  let out := processEndpoint self path method req (c, []) in
  out.1 = Normal None ∧
  sent out.2.2 = [HttpJson (VNum 405) (errorBody (VNum 405) (VStr "method not available"))] ∧
  (protoMember path = false →
     ∃ i, endpointInstances out.2.1 !! path = Some i ∧ inst_class i = cls) ∧
  (protoMember path = true → out.2.1 = c).
Proof.
  intros Hreach Hreg Hverb out. subst out.
  pose proof (Caching.router_reachable_cacheInv self c Hreach) as Hinv.
  rewrite Encoding.processEndpoint_run.
  destruct (protoMember path) eqn:Hproto.
  - rewrite Caching.getEndpoint_run, (Cache.cacheInv_read _ _ _ Hinv), Hproto.
    cbn [methodOf fst snd]. split_and!; [reflexivity | reflexivity | discriminate | reflexivity].
  - destruct (Caching.getEndpoint_local self path cls c Hreg Hproto Hinv)
      as (i & c' & -> & Hi & Hcls & _).
    cbn [methodOf]. rewrite Hcls, Hverb. cbn [fst snd].
    split_and!; [reflexivity | reflexivity | | discriminate].
    intros _. exists i. split; assumption.
Qed.

Lemma missing_verb_answered_405_witness :
  sent (processEndpoint strictRouter "orders" Put (postRequest "/api/orders")
          (emptyCache, [])).2.2 =
  [HttpJson (VNum 405) (errorBody (VNum 405) (VStr "method not available"))].
Proof.
  eapply (missing_verb_answered_405 strictRouter "orders" Put
            (postRequest "/api/orders") emptyCache);
    [apply rtc_refl | reflexivity | reflexivity].
Defined.

(** X4: the router cannot serve a key registered as a URL string: the
    dispatch throws a [TypeError] synchronously at [new], before anything
    is written to the response object, and leaves the cache as it was.
    Under a key that is the name of a member of [Object.prototype]
    [new] is not reached: the request is answered with status 405. *)
Theorem remote_key_not_served self path method req c res url :
  ServerSpec.reachable self c →
  endpoints self !! path = Some (Remote url) →
  processEndpoint self path method req (c, res) =
    if protoMember path
    then (Normal None, (c, res ++ errorCalls (VNum 405) (VStr "method not available")))
    else (Throw (TypeError "string is not a constructor"), (c, res)).
Proof.
  intros Hreach Hreg.
  pose proof (Caching.router_reachable_cacheInv self c Hreach) as Hinv.
  rewrite Encoding.processEndpoint_run, Caching.getEndpoint_run.
  rewrite (Cache.cacheInv_read _ _ _ Hinv).
  destruct Hinv as (Hcached & _ & _).
  destruct (protoMember path) eqn:Hproto; [reflexivity|].
  destruct (endpointInstances c !! path) as [i|] eqn:Hi.
  - destruct (Hcached _ _ Hi) as (_ & Hr & _). congruence.
  - simpl. rewrite Cache.read_own, Hreg by exact Hproto. reflexivity.
Qed.

Lemma remote_key_not_served_witness :
  serve strictRouter Get (postRequest "/api/messages") emptyCache =
    (Throw (TypeError "string is not a constructor"), (emptyCache, [])).
Proof.
  apply (remote_key_not_served strictRouter "messages" Get
           (postRequest "/api/messages") emptyCache [] "https://example.org/api/messages").
  - apply rtc_refl.
  - reflexivity.
Defined.

(** X5: no request gets two responses: whatever the handler does, a
    dispatch has at most one response sent, and so does a whole request
    through [processMethod]. *)
Theorem at_most_one_response self path method req c :
  length (sent (processEndpoint self path method req (c, [])).2.2) ≤ 1 ∧
  length (sent (serve self method req c).2.2) ≤ 1.
Proof.
  assert (Herr : ∀ e, length (sent (respondWithError self e []).2) ≤ 1).
  { intros e. rewrite Encoding.respondWithError_value.
    destruct (nullish e); [simpl; lia|].
    destruct (takesStatus _ _); simpl; lia. }
  assert (Hdispatch : ∀ p, length (sent (processEndpoint self p method req (c, [])).2.2) ≤ 1).
  { intros p. rewrite Encoding.processEndpoint_run.
    destruct (getEndpoint self p c) as [[endpoint|e] c']; [|simpl; lia].
    destruct (methodOf endpoint method) as [handle|]; [|simpl; lia].
    set (settles := handle _ _). destruct settles as [result|e].
    - destruct (respondWithSuccess_value result []) as [[e ->]|(call & -> & Hone)].
      + specialize (Herr e). destruct (respondWithError self e []) as [[u|e'] res']; exact Herr.
      + cbn [Encoding.answered fst snd]. rewrite app_nil_l, Hone. lia.
    - specialize (Herr e). destruct (respondWithError self e []) as [[u|e'] res']; exact Herr. }
  split; [apply Hdispatch|].
  rewrite Resolution.serve_run.
  destruct (matchApi (originalUrl req)) as [apiUrl|]; [|simpl; lia].
  destruct (findEndpoint self _) as [checkPath|]; [apply Hdispatch|]. simpl. lia.
Qed.

End Responses.

(** ** The mount prefix *)

Module Mount.
Import Server Spec More.

Lemma stripPrefix_app p s rest :
  Str.stripPrefix p s = Some rest ↔ s = p +:+ rest.
Proof.
  revert s. induction p as [|a p IH]; intros s; simpl.
  - split; [intros [= ->]; reflexivity | intros ->; reflexivity].
  - destruct s as [|b s]; [split; discriminate|].
    destruct (Ascii.eqb_spec a b) as [->|Hne].
    + rewrite IH. split; [intros ->; reflexivity | intros [= ->]; reflexivity].
    + split; [discriminate | intros [= Heq _]; congruence].
Qed.

Lemma afterFirst_occurs p s rest :
  Str.afterFirst p s = Some rest → ∃ before, s = before +:+ p +:+ rest.
Proof.
  revert rest. induction s as [|c s IH]; intros rest; simpl.
  - destruct (Str.stripPrefix p "") as [r|] eqn:Hp; [|discriminate].
    intros [= ->]. apply stripPrefix_app in Hp. exists "". exact Hp.
  - destruct (Str.stripPrefix p (String c s)) as [r|] eqn:Hp.
    + intros [= ->]. apply stripPrefix_app in Hp. exists "". exact Hp.
    + intros Hrec. destruct (IH _ Hrec) as [before ->].
      exists (String c before). reflexivity.
Qed.

Lemma occurs_afterFirst p before behind :
  is_Some (Str.afterFirst p (before +:+ p +:+ behind)).
Proof.
  induction before as [|c before IH].
  - assert (Hp : Str.stripPrefix p (p +:+ behind) = Some behind)
      by (apply stripPrefix_app; reflexivity).
    change ("" +:+ p +:+ behind) with (p +:+ behind).
    destruct (p +:+ behind) as [|x s]; simpl; simpl in Hp; rewrite Hp; eauto.
  - change (String c before +:+ p +:+ behind) with (String c (before +:+ p +:+ behind)).
    simpl. destruct (Str.stripPrefix p _); eauto.
Qed.

(** [match] gives [null] exactly on the URLs without [/api/]. *)
Lemma matchApi_null url :
  matchApi url = None ↔ ¬ occursIn "/api/" url.
Proof.
  unfold matchApi, occursIn. split.
  - intros Hnone (before & behind & ->).
    destruct (occurs_afterFirst "/api/" before behind) as [rest Hrest].
    rewrite Hrest in Hnone. discriminate.
  - intros Hno. destruct (Str.afterFirst "/api/" url) as [rest|] eqn:Hrest; [|reflexivity].
    exfalso. apply Hno. destruct (afterFirst_occurs _ _ _ Hrest) as [before ->]. eauto.
Qed.

(** X6: a request whose URL does not contain [/api/] makes
    [processMethod] throw a [TypeError] synchronously ([match] gives
    [null]): nothing is written to the response object, no handler is
    made, and no 404 is sent. *)
Theorem unmounted_url_throws self method req c :
  ¬ occursIn "/api/" (originalUrl req) →
  serve self method req c =
    (Throw (TypeError "Cannot read properties of null"), (c, [])).
Proof.
  intros Hno. apply matchApi_null in Hno.
  rewrite Resolution.serve_run, Hno. reflexivity.
Qed.

Lemma unmounted_url_throws_witness :
  serve strictRouter Get (postRequest "/v2/orders") emptyCache =
    (Throw (TypeError "Cannot read properties of null"), (emptyCache, [])).
Proof.
  apply (unmounted_url_throws strictRouter Get (postRequest "/v2/orders") emptyCache).
  apply matchApi_null. reflexivity.
Defined.

(** X7: the query string takes no part in the resolution of the
    endpoint: for a URL that begins with the mount prefix, the sub-path
    the router splits is what lies between [/api/] and the first question
    mark, with or without a query string behind it. *)
Theorem query_string_not_resolved sub :
  without "?" sub →
  matchApi ("/api/" +:+ sub) = Some sub ∧
  ∀ queryString, matchApi ("/api/" +:+ sub +:+ String "?" queryString) = Some sub.
Proof.
  intros Hsub. unfold matchApi. split.
  - change (Str.afterFirst "/api/" ("/api/" +:+ sub)) with (Some sub).
    simpl. rewrite Resolution.upTo_without by exact Hsub. reflexivity.
  - intros queryString.
    change (Str.afterFirst "/api/" ("/api/" +:+ sub +:+ String "?" queryString))
      with (Some (sub +:+ String "?" queryString)).
    simpl. rewrite Resolution.upTo_stop by exact Hsub. reflexivity.
Qed.

Lemma query_string_not_resolved_witness :
  matchApi ("/api/" +:+ "a/b" +:+ String "?" "x=2&y=/api/z") = Some "a/b".
Proof.
  apply (query_string_not_resolved "a/b").
  intros x Hx. simpl in Hx.
  destruct Hx as [<-|[<-|[<-|[]]]]; discriminate.
Defined.

End Mount.

(** ** The extracted params *)

Module Params.
Import Server Spec More.

Lemma headerSource_lookup self req k :
  headerSource self req !! k =
  if bool_decide (k ∈ headerParams self) then Some (headerValue (header req k)) else None.
Proof. apply Extraction.copy_headers_lookup. Qed.

Lemma rawBodySource_lookup req k :
  rawBodySource req !! k =
  match rawBody req with
  | Some raw => if Str.nonEmpty raw && bool_decide (k = "_body") then Some (VStr raw) else None
  | None => None
  end.
Proof.
  unfold rawBodySource. destruct (rawBody req) as [raw|]; [|apply lookup_empty].
  destruct (Str.nonEmpty raw); simpl; [|apply lookup_empty].
  case_bool_decide as Hk.
  - subst k. apply lookup_singleton_eq.
  - apply lookup_singleton_ne. congruence.
Qed.

Lemma requestIdSource_lookup self req k :
  requestIdSource self req !! k =
  match header req "X-Request-ID" with
  | Some id =>
      if includeRequestId self && Str.nonEmpty id && bool_decide (k = "_request_id")
      then Some (VStr id) else None
  | None => None
  end.
Proof.
  unfold requestIdSource. destruct (header req "X-Request-ID") as [id|]; [|apply lookup_empty].
  destruct (includeRequestId self && Str.nonEmpty id); simpl; [|apply lookup_empty].
  case_bool_decide as Hk.
  - subst k. apply lookup_singleton_eq.
  - apply lookup_singleton_ne. congruence.
Qed.

Lemma authSource_other req k :
  k ≠ "_auth_token" → authSource req !! k = None.
Proof.
  intros Hk. unfold authSource. destruct (header req "Authorization") as [a|]; [|apply lookup_empty].
  destruct (_ && _); [|apply lookup_empty]. apply lookup_singleton_ne. congruence.
Qed.

(** X8: parameter extraction never drops a key: every key of the parsed
    body and every key of the query string is a key of the params. *)
Theorem extractParams_keeps_keys self method req :
  dom (body req) ∪ dom (query req) ⊆ dom (extractParams self method req).
Proof.
  rewrite Extraction.extractParams_sources. rewrite !dom_union_L.
  intros k Hk. apply elem_of_union in Hk.
  apply elem_of_union. right. apply elem_of_union. tauto.
Qed.

(** X9: every configured header name is written into the params,
    whether the request carries the header or not: under such a name the
    params hold the header, or [undefined] when the request has none, and
    what the body, the query or an earlier source had there is lost. *)
Theorem configured_header_overwrites self method req h :
  h ∈ headerParams self →
  extractParams self method req !! h = Some (headerValue (header req h)) ∧
  (header req h = None → extractParams self method req !! h = Some VUndefined).
Proof.
  intros Hh.
  assert (Hrun : extractParams self method req !! h = Some (headerValue (header req h))).
  { rewrite Extraction.extractParams_sources. unfold laterSources.
    rewrite <- !(assoc_L (∪)). apply lookup_union_Some_l.
    rewrite headerSource_lookup, bool_decide_eq_true_2 by exact Hh. reflexivity. }
  split; [exact Hrun|]. intros Hnone. rewrite Hrun, Hnone. reflexivity.
Qed.

Lemma configured_header_overwrites_witness :
  body (postRequest "/api/orders") !! "X-Tenant" = Some (VStr "body") ∧
  extractParams strictRouter Post (postRequest "/api/orders") !! "X-Tenant" = Some VUndefined.
Proof.
  split; [reflexivity|].
  apply (configured_header_overwrites strictRouter Post (postRequest "/api/orders") "X-Tenant").
  - apply list_elem_of_singleton. reflexivity.
  - reflexivity.
Defined.

Lemma raw_body_attached_eq self method req :
  "_body" ∉ headerParams self →
  extractParams self method req !! "_body" =
    match rawBody req with
    | Some raw =>
        if Str.nonEmpty raw then Some (VStr raw) else (query req ∪ body req) !! "_body"
    | None => (query req ∪ body req) !! "_body"
    end.
Proof.
  intros Hnot. rewrite Extraction.extractParams_sources. unfold laterSources.
  rewrite lookup_union, lookup_union, lookup_union, lookup_union.
  rewrite headerSource_lookup, bool_decide_eq_false_2 by exact Hnot.
  rewrite requestIdSource_lookup, authSource_other, rawBodySource_lookup by done.
  assert (Hrid : ∀ id, includeRequestId self && Str.nonEmpty id &&
                        bool_decide ("_body" = "_request_id") = false).
  { intros id. rewrite bool_decide_eq_false_2 by done. apply andb_false_r. }
  destruct (header req "X-Request-ID") as [id|]; rewrite ?Hrid;
    (destruct (rawBody req) as [raw|]; [destruct (Str.nonEmpty raw)|]); simpl;
    destruct ((query req ∪ body req) !! "_body"); reflexivity.
Qed.

(** X10: under [_body] the params hold the raw body text whenever the
    request has a non-empty one, over what the body or the query had
    there; without a raw body nothing is attached. *)
Theorem raw_body_attached self method req :
  "_body" ∉ headerParams self →
  extractParams self method req !! "_body" =
    match rawBody req with
    | Some raw =>
        if Str.nonEmpty raw then Some (VStr raw) else (query req ∪ body req) !! "_body"
    | None => (query req ∪ body req) !! "_body"
    end.
Proof. apply raw_body_attached_eq. Qed.

Lemma raw_body_attached_witness :
  extractParams strictRouter Post (postRequest "/api/orders") !! "_body" = Some (VStr "{}").
Proof.
  apply (raw_body_attached strictRouter Post (postRequest "/api/orders")).
  intros Hin. apply list_elem_of_singleton in Hin. discriminate Hin.
Defined.

(** X11: the request id reaches the params only when its propagation is
    switched on: then a non-empty [X-Request-ID] header is attached under
    [_request_id]; with the switch off, or without the header, nothing is
    attached there. *)
Theorem request_id_attached self method req :
  "_request_id" ∉ headerParams self →
  extractParams self method req !! "_request_id" =
    match header req "X-Request-ID" with
    | Some id =>
        if includeRequestId self && Str.nonEmpty id then Some (VStr id)
        else (query req ∪ body req) !! "_request_id"
    | None => (query req ∪ body req) !! "_request_id"
    end.
Proof.
  intros Hnot. rewrite Extraction.extractParams_sources. unfold laterSources.
  rewrite lookup_union, lookup_union, lookup_union, lookup_union.
  rewrite headerSource_lookup, bool_decide_eq_false_2 by exact Hnot.
  rewrite requestIdSource_lookup, authSource_other, rawBodySource_lookup by done.
  assert (Hraw : ∀ raw, Str.nonEmpty raw && bool_decide ("_request_id" = "_body") = false).
  { intros raw. rewrite bool_decide_eq_false_2 by done. apply andb_false_r. }
  rewrite (bool_decide_eq_true_2 ("_request_id" = "_request_id")) by reflexivity.
  destruct (rawBody req) as [raw|]; rewrite ?Hraw;
    (destruct (header req "X-Request-ID") as [id|];
       [destruct (includeRequestId self && Str.nonEmpty id)|]); simpl;
    destruct ((query req ∪ body req) !! "_request_id"); reflexivity.
Qed.

Lemma request_id_attached_witness :
  extractParams strictRouter Post (postRequest "/api/orders") !! "_request_id"
  = Some (VStr "r-17").
Proof.
  apply (request_id_attached strictRouter Post (postRequest "/api/orders")).
  intros Hin. apply list_elem_of_singleton in Hin. discriminate Hin.
Defined.

Lemma splitSpace_head s :
  ∃ behind, Str.splitSpace s = firstWord s :: behind.
Proof.
  induction s as [|c s [behind IH]]; simpl; [eauto|].
  destruct (Str.isSpace c); [eauto|]. rewrite IH. eauto.
Qed.

Lemma splitSpace_cut word c rest :
  noSpace word = true → Str.isSpace c = true →
  Str.splitSpace (word +:+ String c rest) = word :: Str.splitSpace rest.
Proof.
  intros Hword Hc. induction word as [|x word IH]; simpl.
  - rewrite Hc. reflexivity.
  - simpl in Hword. apply andb_prop in Hword as [Hx Hword].
    destruct (Str.isSpace x); [discriminate|]. rewrite (IH Hword). reflexivity.
Qed.

Lemma authToken_first_word scheme rest :
  noSpace scheme = true →
  authToken (scheme +:+ " " +:+ rest) = VStr (firstWord rest).
Proof.
  intros Hscheme. unfold authToken.
  change (scheme +:+ " " +:+ rest) with (scheme +:+ String " " rest).
  rewrite splitSpace_cut by (exact Hscheme || reflexivity).
  destruct (splitSpace_head rest) as [behind ->]. reflexivity.
Qed.

Lemma auth_token_lookup self method req :
  "_auth_token" ∉ headerParams self →
  extractParams self method req !! "_auth_token" =
    match authSource req !! "_auth_token" with
    | Some token => Some token
    | None => (query req ∪ body req) !! "_auth_token"
    end.
Proof.
  intros Hnot. rewrite Extraction.extractParams_sources, lookup_union.
  rewrite Extraction.laterSources_auth_token by exact Hnot.
  destruct (authSource req !! "_auth_token"), ((query req ∪ body req) !! "_auth_token");
    reflexivity.
Qed.

(** X12: the token attached is the first word behind the scheme: for an
    [Authorization] header that begins with [Bearer ] or [bearer ], the
    params hold under [_auth_token] what lies between that first space
    and the next white space (the empty string when a second space
    follows at once), whatever comes behind. *)
Theorem token_is_first_word self method req scheme rest :
  scheme = "Bearer" ∨ scheme = "bearer" →
  header req "Authorization" = Some (scheme +:+ " " +:+ rest) →
  "_auth_token" ∉ headerParams self →
  extractParams self method req !! "_auth_token" = Some (VStr (firstWord rest)).
Proof.
  intros Hscheme Hheader Hnot. rewrite auth_token_lookup by exact Hnot.
  unfold authSource. rewrite Hheader.
  assert (Hguard : Str.nonEmpty (scheme +:+ " " +:+ rest) &&
                   (Str.startsWith "Bearer " (scheme +:+ " " +:+ rest)
                    || Str.startsWith "bearer " (scheme +:+ " " +:+ rest)) = true)
    by (destruct Hscheme as [-> | ->]; destruct rest; reflexivity).
  rewrite Hguard, lookup_singleton_eq.
  rewrite authToken_first_word by (destruct Hscheme as [-> | ->]; reflexivity).
  reflexivity.
Qed.

Lemma token_is_first_word_witness :
  extractParams App.router Get (forgedRequest (Some "Bearer abc123 trailing words"))
    !! "_auth_token"
  = Some (VStr "abc123").
Proof.
  apply (token_is_first_word App.router Get
           (forgedRequest (Some "Bearer abc123 trailing words")) "Bearer"
           "abc123 trailing words").
  - left. reflexivity.
  - reflexivity.
  - simpl. apply not_elem_of_nil.
Defined.

(** X13: without a bearer header the router attaches no token, and
    [_auth_token] is then whatever the caller put into the query string
    or the body: for a request with no [Authorization] header, or one that
    begins with neither [Bearer ] nor [bearer ], the params hold under
    [_auth_token] the value of the query, else of the body. *)
Theorem token_taken_from_request self method req :
  (∀ a, header req "Authorization" = Some a →
        Str.startsWith "Bearer " a = false ∧ Str.startsWith "bearer " a = false) →
  "_auth_token" ∉ headerParams self →
  extractParams self method req !! "_auth_token" =
    match query req !! "_auth_token" with
    | Some v => Some v
    | None => body req !! "_auth_token"
    end.
Proof.
  intros Hother Hnot. rewrite auth_token_lookup by exact Hnot.
  assert (Hnone : authSource req !! "_auth_token" = None).
  { unfold authSource. destruct (header req "Authorization") as [a|]; [|apply lookup_empty].
    destruct (Hother a eq_refl) as [-> ->]. rewrite andb_false_r. apply lookup_empty. }
  rewrite Hnone, lookup_union.
  destruct (query req !! "_auth_token"), (body req !! "_auth_token"); reflexivity.
Qed.

Lemma token_taken_from_request_witness :
  extractParams App.router Get (forgedRequest (Some "Basic dXNlcjpwdw==")) !! "_auth_token"
  = Some (VStr "forged").
Proof.
  apply (token_taken_from_request App.router Get (forgedRequest (Some "Basic dXNlcjpwdw=="))).
  - intros a Ha. injection Ha as <-. split; reflexivity.
  - simpl. apply not_elem_of_nil.
Defined.

(** X14: [rawBodySaver] feeds the [_body] param: an absent or empty
    buffer leaves the request as it is; a non-empty buffer sets [rawBody]
    to its text, decoded in the given encoding, or in utf8 when none is
    given, and that text, when not empty, is what parameter extraction
    then attaches under [_body]. *)
Theorem rawBodySaver_feeds_body toString self method req buf encoding :
  "_body" ∉ headerParams self →
  let req' := rawBodySaver toString req buf encoding in
  let charset := match encoding with
                 | Some e => if Str.nonEmpty e then e else "utf8"
                 | None => "utf8"
                 end in
  (buf = None ∨ buf = Some [] → req' = req) ∧
  (∀ b, buf = Some b → b ≠ [] →
        rawBody req' = Some (toString charset b) ∧
        (toString charset b ≠ "" →
         extractParams self method req' !! "_body" = Some (VStr (toString charset b)))).
Proof.
  intros Hnot req' charset. split.
  - intros [-> | ->]; reflexivity.
  - intros b -> Hb. subst req'. unfold rawBodySaver.
    destruct b as [|x b]; [congruence|]. cbn [length Nat.eqb negb].
    split; [reflexivity|]. intros Htext.
    assert (Hne : Str.nonEmpty (toString charset (x :: b)) = true).
    { unfold Str.nonEmpty. destruct (String.eqb_spec (toString charset (x :: b)) "");
        [contradiction|reflexivity]. }
    rewrite raw_body_attached_eq by exact Hnot. cbn [rawBody].
    unfold charset in Hne. rewrite Hne. reflexivity.
Qed.

Lemma rawBodySaver_feeds_body_witness :
  let req' := rawBodySaver (λ _ b, string_of_list_byte b) (forgedRequest None)
                (Some [Byte.x7b; Byte.x7d]) None in
  rawBody (forgedRequest None) = None ∧
  extractParams App.router Post req' !! "_body" = Some (VStr "{}").
Proof.
  split; [reflexivity|].
  destruct (rawBodySaver_feeds_body (λ _ b, string_of_list_byte b) App.router Post
              (forgedRequest None) (Some [Byte.x7b; Byte.x7d]) None) as [_ Hset].
  - simpl. apply not_elem_of_nil.
  - destruct (Hset [Byte.x7b; Byte.x7d] eq_refl) as [_ Hbody]; [discriminate|].
    apply Hbody. discriminate.
Defined.

End Params.

(** ** The router's cache and resolution *)

Module RouterState.
Import Server Spec More.

Lemma dispatch_lookup self path method req c k :
  endpointInstances (ServerSpec.dispatch self path method req c) !! k =
  match read (endpointInstances c) path, construct (read (endpoints self) path) c with
  | None, Normal i =>
      if decide (path = k)
      then Some {| inst_id := inst_id i; inst_class := inst_class i;
                   inst_log := Some (log self) |}
      else endpointInstances c !! k
  | _, _ => endpointInstances c !! k
  end.
Proof.
  rewrite Caching.dispatch_cache, Caching.getEndpoint_run.
  destruct (read (endpointInstances c) path) as [j|]; [reflexivity|].
  destruct (construct (read (endpoints self) path) c) as [i|e]; [|reflexivity].
  simpl. destruct (decide (path = k)) as [->|Hne].
  - apply lookup_insert_eq.
  - rewrite !lookup_insert_ne by exact Hne. reflexivity.
Qed.

(** X15: every instance the router holds has been made from the class
    registered under its key and carries the router's [log]: in every
    state of the cache reached by dispatches, a cached instance has
    [log] set to the [log] of the server. *)
Theorem cached_instance_has_log self c k i :
  ServerSpec.reachable self c →
  endpointInstances c !! k = Some i →
  inst_log i = Some (log self) ∧ endpoints self !! k = Some (Local (inst_class i)).
Proof.
  intros Hreach Hi. split.
  - revert k i Hi. revert c Hreach.
    apply (rtc_ind_r (λ c, ∀ k i, endpointInstances c !! k = Some i →
                                   inst_log i = Some (log self))).
    + intros k i Hi. simpl in Hi. rewrite lookup_empty in Hi. discriminate.
    + intros c0 c Hsteps (path & method & req & ->) IH k i Hi.
      rewrite dispatch_lookup in Hi.
      destruct (read (endpointInstances c0) path) as [j|]; [exact (IH k i Hi)|].
      destruct (construct (read (endpoints self) path) c0) as [j|e]; [|exact (IH k i Hi)].
      destruct (decide (path = k)); [|exact (IH k i Hi)].
      injection Hi as <-. reflexivity.
  - destruct (Caching.router_reachable_cacheInv self c Hreach) as (Hcached & _ & _).
    apply (Hcached k i Hi).
Qed.

Lemma cached_instance_has_log_witness :
  let c := ServerSpec.dispatch strictRouter "orders" Get (postRequest "/api/orders") emptyCache in
  let i := {| inst_id := 0; inst_class := failing (failure 404 "order not found");
              inst_log := Some (VStr "logger") |} in
  endpointInstances c !! "orders" = Some i ∧
  inst_log i = Some (log strictRouter) ∧
  endpoints strictRouter !! "orders" = Some (Local (inst_class i)).
Proof.
  split; [reflexivity|].
  eapply (cached_instance_has_log strictRouter
            (ServerSpec.dispatch strictRouter "orders" Get (postRequest "/api/orders")
               emptyCache) "orders").
  - apply rtc_once. do 3 eexists. reflexivity.
  - reflexivity.
Defined.

(** X16: a request changes the router's cache under no key but the one
    it resolves to: under every other key the cache is after the request
    what it was before, whether the request was served, answered with an
    error, or threw. *)
Theorem request_touches_one_key self method req c k :
  (∀ apiUrl, matchApi (originalUrl req) = Some apiUrl →
             findEndpoint self (Str.split path_sep apiUrl) ≠ Some k) →
  endpointInstances (serve self method req c).2.1 !! k = endpointInstances c !! k.
Proof.
  intros Hother. rewrite Resolution.serve_run.
  destruct (matchApi (originalUrl req)) as [apiUrl|]; [|reflexivity].
  specialize (Hother apiUrl eq_refl).
  destruct (findEndpoint self (Str.split path_sep apiUrl)) as [checkPath|]; [|reflexivity].
  change ((processEndpoint self checkPath method req (c, [])).2.1)
    with (ServerSpec.dispatch self checkPath method req c).
  rewrite dispatch_lookup.
  destruct (read (endpointInstances c) checkPath); [reflexivity|].
  destruct (construct _ c); [|reflexivity].
  destruct (decide (checkPath = k)); [congruence|reflexivity].
Qed.

Lemma request_touches_one_key_witness :
  endpointInstances (serve strictRouter Get (postRequest "/api/orders/17") emptyCache).2.1
    !! "hook" = None.
Proof.
  apply (request_touches_one_key strictRouter Get (postRequest "/api/orders/17")
           emptyCache "hook").
  intros apiUrl Hurl. injection Hurl as <-. vm_compute. discriminate.
Defined.

Lemma without_cons c x s :
  without c (String x s) ↔ x ≠ c ∧ without c s.
Proof.
  unfold without. simpl. split.
  - intros H. split; [apply H; left; reflexivity|]. intros y Hy. apply H. right. exact Hy.
  - intros [Hx Hs] y [<-|Hy]; [exact Hx | apply Hs; exact Hy].
Qed.

Lemma split_segments sep s : Forall (without sep) (Str.split sep s).
Proof.
  induction s as [|c s IH]; simpl.
  - constructor; [intros x []|constructor].
  - destruct (Ascii.eqb_spec c sep) as [->|Hne].
    + constructor; [intros x []|exact IH].
    + destruct (Str.split sep s) as [|seg segs]; [constructor; [|constructor]|].
      * apply without_cons. split; [exact Hne|intros x []].
      * apply Forall_cons in IH as [Hseg Hsegs].
        constructor; [|exact Hsegs]. apply without_cons. split; assumption.
Qed.

Lemma split_single sep s : without sep s → Str.split sep s = [s].
Proof.
  induction s as [|c s IH]; intros Hs; [reflexivity|].
  apply without_cons in Hs as [Hc Hs]. simpl.
  destruct (Ascii.eqb_spec c sep); [contradiction|]. rewrite (IH Hs). reflexivity.
Qed.

Lemma split_cut sep s rest :
  without sep s → Str.split sep (s +:+ String sep rest) = s :: Str.split sep rest.
Proof.
  induction s as [|c s IH]; intros Hs; simpl.
  - rewrite Ascii.eqb_refl. reflexivity.
  - apply without_cons in Hs as [Hc Hs].
    destruct (Ascii.eqb_spec c sep); [contradiction|]. rewrite (IH Hs). reflexivity.
Qed.

(** Splitting what [join] made of segments without the separator gives
    the segments back. *)
Lemma split_join sep segments :
  segments ≠ [] → Forall (without sep) segments →
  Str.split sep (Str.join sep segments) = segments.
Proof.
  unfold Str.join. induction segments as [|seg segments IH]; intros Hne Hall; [done|].
  apply Forall_cons in Hall as [Hseg Hall].
  destruct segments as [|seg' segments].
  - simpl. apply split_single. exact Hseg.
  - change (String.concat (String sep "") (seg :: seg' :: segments))
      with (seg +:+ String sep (String.concat (String sep "") (seg' :: segments))).
    rewrite split_cut by exact Hseg. rewrite IH; [reflexivity | discriminate | exact Hall].
Qed.

(** X17: resolution is stable: the key a sub-path resolves to resolves
    to itself, so a request for the bare key reaches the same endpoint
    as the longer path did. *)
Theorem resolved_key_resolves_to_itself self apiUrl key :
  findEndpoint self (Str.split path_sep apiUrl) = Some key →
  findEndpoint self (Str.split path_sep key) = Some key.
Proof.
  intros Hfind. set (segments := Str.split path_sep apiUrl) in *.
  pose proof (Resolution.findEndpoint_take self segments (length segments) (le_n _)) as Htake.
  rewrite firstn_all, Hfind in Htake. destruct Htake as (m & Hm & -> & Hpresent & _).
  unfold prefixKey. rewrite split_join.
  - rewrite findEndpoint_equation.
    destruct (take m segments) as [|x l] eqn:Hl.
    + apply (f_equal length) in Hl. rewrite length_take_le in Hl by lia. simpl in Hl. lia.
    + rewrite <- Hl. fold (prefixKey segments m). cbv zeta. rewrite Hpresent. reflexivity.
  - intros Hnil. apply (f_equal length) in Hnil.
    rewrite length_take_le in Hnil by lia. simpl in Hnil. lia.
  - apply Forall_take. apply split_segments.
Qed.

Lemma resolved_key_resolves_to_itself_witness :
  findEndpoint App.router (Str.split path_sep "a/b/c/d") = Some "a/b" ∧
  findEndpoint App.router (Str.split path_sep "a/b") = Some "a/b".
Proof.
  split; [vm_compute; reflexivity|].
  apply (resolved_key_resolves_to_itself App.router "a/b/c/d" "a/b").
  vm_compute. reflexivity.
Defined.

End RouterState.

(** ** The envelope, there and back *)

Module Envelope.
Import Spec More.

(** X18: what the router wraps the resolver unwraps: for a truthy result
    on which the probe can be called and which has none of the reserved
    keys, the body [respondWithSuccess] sends is [{data: result}], and
    [callRemote] takes the result back out of that body. *)
Theorem envelope_round_trip result :
  truthy result = true →
  probeable result = true →
  (∀ props, result = VObj props →
            props !! "_raw" = None ∧ props !! "_redirect" = None ∧ props !! "data" = None) →
  Server.respondWithSuccess result [] = (Normal (), [ResJson (VObj {[ "data" := result ]})]) ∧
  Client.returnToParser (VObj {[ "data" := result ]}) = Normal result.
Proof.
  intros Htruthy Hprobe Hplain. split.
  - destruct result as [| |b|n|s|m|props|props]; try discriminate; try reflexivity.
    destruct (Hplain props eq_refl) as (Hraw & Hre & Hdata).
    simpl in Hprobe. apply bool_decide_eq_true in Hprobe.
    rewrite Encoding.respondWithSuccess_encode by exact Hprobe. unfold encode.
    rewrite Hraw, Hre, Hdata. reflexivity.
  - rewrite Resolver.returnToParser_object, lookup_singleton_eq, Htruthy. reflexivity.
Qed.

Lemma envelope_round_trip_witness :
  Server.respondWithSuccess App.car [] = (Normal (), [ResJson (VObj {[ "data" := App.car ]})]) ∧
  Client.returnToParser (VObj {[ "data" := App.car ]}) = Normal App.car.
Proof.
  apply (envelope_round_trip App.car).
  - reflexivity.
  - reflexivity.
  - intros props Hprops. injection Hprops as <-. split_and!; reflexivity.
Defined.

End Envelope.

(** ** The resolver's outcomes *)

Module Outcomes.
Import Client ClientSpec More.

Lemma supported_verbs m :
  supported m = true ↔ m ∈ ["get"; "delete"; "put"; "post"].
Proof.
  unfold supported. rewrite orb_true_iff, !bool_decide_eq_true.
  rewrite !elem_of_cons, elem_of_nil. tauto.
Qed.

Lemma call_remote self c o url :
  endpoints self !! endpoint o = Some (Remote url) →
  call self (c, o) = (Normal (remoteOutcome self o), (c, afterRemote o)).
Proof. intros Hd. rewrite Resolver.call_run_own, Hd. reflexivity. Qed.

Lemma call_options self c o :
  (call self (c, o)).2.2 =
  match endpoints self !! endpoint o with
  | Some (Remote _) => afterRemote o
  | _ => afterLocal o
  end.
Proof.
  rewrite Resolver.call_run_own.
  destruct (endpoints self !! endpoint o) as [[url|cls]|]; try reflexivity;
    rewrite Resolver.callLocal_run;
    destruct (read (endpointInstances c) (endpoint o)); try reflexivity;
    destruct (construct _ c); reflexivity.
Qed.

(** X19: a verb other than [get], [delete], [put] and [post] on a remote
    endpoint is rejected with status 405 and the message
    [method not supported], whatever the transport then does with the
    request: the rejection comes first and the promise keeps it. *)
Theorem unsupported_verb_rejected self c o url :
  endpoints self !! endpoint o = Some (Remote url) →
  methodOrGet o ∉ ["get"; "delete"; "put"; "post"] →
  (call self (c, o)).1 = Normal (Rejected (failure 405 "method not supported")).
Proof.
  intros Hd Hverb. rewrite (call_remote _ _ _ _ Hd). unfold remoteOutcome.
  destruct (supported (methodOrGet o)) eqn:Hs; [|reflexivity].
  apply supported_verbs in Hs. contradiction.
Qed.

Lemma unsupported_verb_rejected_witness :
  (call (App.api VNull) (emptyCache, verbOptions "messages" "head")).1 =
  Normal (Rejected (failure 405 "method not supported")).
Proof.
  apply (unsupported_verb_rejected (App.api VNull) emptyCache (verbOptions "messages" "head")
           "https://example.org/api/messages").
  - reflexivity.
  - intros Hin. rewrite !elem_of_cons, elem_of_nil in Hin.
    destruct Hin as [H|[H|[H|[H|[]]]]]; discriminate H.
Defined.

(** X20: when the transport fails a request to a remote endpoint, the
    call is rejected with [{status: 500, message: err}], [err] being the
    error of the transport. *)
Theorem transport_error_rejected self c o url err :
  endpoints self !! endpoint o = Some (Remote url) →
  methodOrGet o ∈ ["get"; "delete"; "put"; "post"] →
  (∀ m u x, restClient self m u x = TransportError err) →
  (call self (c, o)).1 =
    Normal (Rejected (VObj (<["status" := VNum 500]> {[ "message" := err ]}))).
Proof.
  intros Hd Hverb Hnet. rewrite (call_remote _ _ _ _ Hd). unfold remoteOutcome.
  apply supported_verbs in Hverb. rewrite Hverb, Hnet. reflexivity.
Qed.

Lemma transport_error_rejected_witness :
  (call (offline (VStr "ECONNREFUSED")) (emptyCache, verbOptions "messages" "post")).1 =
  Normal (Rejected (VObj (<["status" := VNum 500]> {[ "message" := VStr "ECONNREFUSED" ]}))).
Proof.
  apply (transport_error_rejected (offline (VStr "ECONNREFUSED")) emptyCache
           (verbOptions "messages" "post") "https://example.org/api/messages").
  - reflexivity.
  - rewrite !elem_of_cons. right. right. right. left. reflexivity.
  - reflexivity.
Defined.

(** X21: a remote response whose parsed body is [null] or [undefined]
    never settles the call: reading [data.data] throws inside the
    callback of the transport, where neither [resolve] nor [reject] is
    reached. *)
Theorem empty_response_never_settles self c o url body :
  endpoints self !! endpoint o = Some (Remote url) →
  methodOrGet o ∈ ["get"; "delete"; "put"; "post"] →
  (∀ m u x, restClient self m u x = Response body) →
  Spec.nullish body = true →
  (call self (c, o)).1 = Normal Pending.
Proof.
  intros Hd Hverb Hnet Hnull. rewrite (call_remote _ _ _ _ Hd). unfold remoteOutcome.
  apply supported_verbs in Hverb. rewrite Hverb, Hnet.
  destruct body; try discriminate; reflexivity.
Qed.

Lemma empty_response_never_settles_witness :
  (call (App.api VNull) (emptyCache, verbOptions "messages" "get")).1 = Normal Pending.
Proof.
  apply (empty_response_never_settles (App.api VNull) emptyCache
           (verbOptions "messages" "get") "https://example.org/api/messages" VNull).
  - reflexivity.
  - rewrite !elem_of_cons. left. reflexivity.
  - reflexivity.
  - reflexivity.
Defined.

(** X22: the params of a remote call travel in one place: as the query
    parameters for [get] and [delete], as the body for [put] and [post],
    never as both; the method handed to the transport is the verb of the
    call, ['get'] when none is given, and the [Content-Type] is the
    caller's, [application/json] when none is given. *)
Theorem params_travel_in_one_place (o : CallOptions) :
  ∃ x, (loadClientOptions (o, Pending)).1 = Normal x ∧
       co_method x = Some (methodOrGet o) ∧
       headers_contentType x =
         Some match contentType o with
              | Some ct => if Str.nonEmpty ct then ct else "application/json"
              | None => "application/json"
              end ∧
       (methodOrGet o = "get" ∨ methodOrGet o = "delete" →
          parameters x = Some (params o) ∧ data x = None) ∧
       (methodOrGet o = "put" ∨ methodOrGet o = "post" →
          data x = Some (params o) ∧ parameters x = None) ∧
       (methodOrGet o ∉ ["get"; "delete"; "put"; "post"] →
          data x = None ∧ parameters x = None).
Proof.
  exists (builtOptions o). rewrite Resolver.loadClientOptions_run.
  unfold builtOptions. cbn [fst parameters data co_method headers_contentType].
  split_and!; try reflexivity.
  - intros Hm. rewrite bool_decide_eq_true_2 by exact Hm. split; reflexivity.
  - intros Hm. rewrite bool_decide_eq_false_2.
    + rewrite bool_decide_eq_true_2 by exact Hm. split; reflexivity.
    + destruct Hm as [Hm|Hm]; rewrite Hm; intros [H|H]; discriminate H.
  - intros Hm. rewrite !elem_of_cons, elem_of_nil in Hm.
    rewrite !bool_decide_eq_false_2 by tauto. split; reflexivity.
Qed.

Lemma params_travel_in_one_place_witness :
  ∃ x, (loadClientOptions (verbOptions "messages" "post", Pending)).1 = Normal x ∧
       data x = Some (VObj {[ "id" := VNum 7 ]}) ∧ parameters x = None.
Proof.
  destruct (params_travel_in_one_place (verbOptions "messages" "post"))
    as (x & Hx & _ & _ & _ & Hpost & _).
  exists x. split; [exact Hx|]. apply Hpost. right. reflexivity.
Defined.

(** X23: the caller's [Content-Type] is sent once: a remote call with a
    non-empty [Content-Type] in its options hands that type to the
    transport and deletes it from the options, so that a second call
    with the same options object goes out as [application/json]. *)
Theorem content_type_sent_once self c o url ct :
  endpoints self !! endpoint o = Some (Remote url) →
  contentType o = Some ct → ct ≠ "" →
  let o' := (call self (c, o)).2.2 in
  (∃ x, (loadClientOptions (o, Pending)).1 = Normal x ∧ headers_contentType x = Some ct) ∧
  contentType o' = None ∧
  (∃ x', (loadClientOptions (o', Pending)).1 = Normal x' ∧
         headers_contentType x' = Some "application/json").
Proof.
  intros Hd Hct Hne o'. subst o'. rewrite (call_remote _ _ _ _ Hd). cbn [fst snd].
  assert (Htruthy : Str.nonEmpty ct = true).
  { unfold Str.nonEmpty. destruct (String.eqb_spec ct ""); [contradiction|reflexivity]. }
  split_and!.
  - exists (builtOptions o). rewrite Resolver.loadClientOptions_run.
    unfold builtOptions. rewrite Hct, Htruthy. split; reflexivity.
  - unfold afterRemote. rewrite Hct, Htruthy. reflexivity.
  - exists (builtOptions (afterRemote o)). rewrite Resolver.loadClientOptions_run.
    unfold builtOptions, afterRemote. rewrite Hct, Htruthy. split; reflexivity.
Qed.

Lemma content_type_sent_once_witness :
  contentType (call (App.api VNull) (emptyCache, App.options "messages")).2.2 = None.
Proof.
  eapply (content_type_sent_once (App.api VNull) emptyCache (App.options "messages")).
  - reflexivity.
  - reflexivity.
  - discriminate.
Defined.

Lemma methodOrGet_nonEmpty o : Str.nonEmpty (methodOrGet o) = true.
Proof.
  unfold methodOrGet. destruct (method o) as [m|]; [|reflexivity].
  destruct (Str.nonEmpty m) eqn:Hm; [exact Hm|reflexivity].
Qed.

(** X24: the writes of [call] into the call options happen once: the
    options a call leaves behind are left as they are by every further
    call with them, on any state of the cache. *)
Theorem call_options_settled self c c' o :
  let o' := (call self (c, o)).2.2 in
  (call self (c', o')).2.2 = o'.
Proof.
  cbv zeta. rewrite !call_options.
  destruct (endpoints self !! endpoint o) as [[url|cls]|] eqn:Hd.
  - change (endpoint (afterRemote o)) with (endpoint o). rewrite Hd.
    unfold afterRemote. cbn [endpoint method params contentType parser].
    f_equal. destruct (contentType o) as [ct|]; [|reflexivity].
    destruct (Str.nonEmpty ct) eqn:Hct; [reflexivity|]. rewrite Hct. reflexivity.
  - change (endpoint (afterLocal o)) with (endpoint o). rewrite Hd.
    unfold afterLocal. cbn [endpoint method params contentType parser].
    f_equal. f_equal. unfold methodOrGet at 1. cbn [method].
    rewrite methodOrGet_nonEmpty. reflexivity.
  - change (endpoint (afterLocal o)) with (endpoint o). rewrite Hd.
    unfold afterLocal. cbn [endpoint method params contentType parser].
    f_equal. f_equal. unfold methodOrGet at 1. cbn [method].
    rewrite methodOrGet_nonEmpty. reflexivity.
Qed.

(** What a local call finds under a key that is the name of a member
    of [Object.prototype]: that member, whatever the registry has. *)
Lemma call_inherited self c o cls :
  CacheSpec.cacheInv (endpoints self) c →
  endpoints self !! endpoint o = Some (Local cls) →
  protoMember (endpoint o) = true →
  call self (c, o) =
    (Normal (Rejected (TypeError "endpointInstances[endpoint][method] is not a function")),
     (c, afterLocal o)).
Proof.
  intros Hinv Hd Hproto.
  rewrite Resolver.call_run_own, Hd, Resolver.callLocal_run.
  rewrite (Cache.cacheInv_read _ _ _ Hinv), Hproto.
  unfold invokeLocal. change (endpoint (afterLocal o)) with (endpoint o).
  rewrite (Cache.cacheInv_read _ _ _ Hinv), Hproto. reflexivity.
Qed.

(** X25: a local call passes the outcome of the handler on: what the
    handler resolves with goes through the parser of the call (the
    identity when none is given) and fulfils the call; what it rejects
    with rejects the call unchanged, the parser not applied.  Under a
    key that is the name of a member of [Object.prototype] the handler
    is not reached: the call is rejected with the error of a method
    call that fails. *)
Theorem local_outcome_passed_on self c o cls handle :
  reachable self c →
  endpoints self !! endpoint o = Some (Local cls) →
  verbs cls (methodOrGet o) = Some handle →
  (call self (c, o)).1 =
    Normal (if protoMember (endpoint o)
            then Rejected (TypeError "endpointInstances[endpoint][method] is not a function")
            else match handle (params o) None with
                 | Resolves result => Fulfilled (parserOrIdentity o result)
                 | Rejects e => Rejected e
                 end).
Proof.
  intros Hreach Hd Hverb.
  pose proof (Resolver.reachable_cacheInv self c Hreach) as Hinv.
  destruct (protoMember (endpoint o)) eqn:Hproto.
  - rewrite (call_inherited _ _ _ _ Hinv Hd Hproto). reflexivity.
  - destruct (Resolver.call_local _ _ _ _ Hinv Hd Hproto) as (i & c' & -> & Hi & Hcls & _).
    cbn [fst]. rewrite (Resolver.invokeLocal_cached _ _ i) by exact Hi.
    cbn [afterLocal method params parser mbind option_bind].
    rewrite Hcls, Hverb. destruct (handle (params o) None); reflexivity.
Qed.

Lemma local_outcome_passed_on_witness :
  (call (App.api VNull) (emptyCache, App.options "counter")).1 = Normal (Fulfilled (VNum 0)).
Proof.
  apply (local_outcome_passed_on (App.api VNull) emptyCache (App.options "counter")
           (App.resolving (VNum 0)) (λ _ _, Resolves (VNum 0))).
  - apply rtc_refl.
  - reflexivity.
  - reflexivity.
Defined.

(** X26: a verb the local handler does not have is no structured
    failure on the resolver's side: the call is rejected with the
    [TypeError] of calling what is not a function (not with a status
    405).  The handler has been instantiated and cached all the same,
    unless the key is the name of a member of [Object.prototype]: then
    the cache is left as it was. *)
Theorem local_missing_verb_rejected self c o cls :
  reachable self c →
  endpoints self !! endpoint o = Some (Local cls) →
  verbs cls (methodOrGet o) = None →
  (call self (c, o)).1 =
    Normal (Rejected (TypeError "endpointInstances[endpoint][method] is not a function")) ∧
  (protoMember (endpoint o) = false →
     ∃ i, endpointInstances (call self (c, o)).2.1 !! endpoint o = Some i ∧ inst_class i = cls) ∧
  (protoMember (endpoint o) = true → (call self (c, o)).2.1 = c).
Proof.
  intros Hreach Hd Hverb.
  pose proof (Resolver.reachable_cacheInv self c Hreach) as Hinv.
  destruct (protoMember (endpoint o)) eqn:Hproto.
  - rewrite (call_inherited _ _ _ _ Hinv Hd Hproto).
    split_and!; [reflexivity | discriminate | reflexivity].
  - destruct (Resolver.call_local _ _ _ _ Hinv Hd Hproto) as (i & c' & -> & Hi & Hcls & _).
    cbn [fst snd]. rewrite (Resolver.invokeLocal_cached _ _ i) by exact Hi.
    cbn [afterLocal method params parser mbind option_bind].
    rewrite Hcls, Hverb. split_and!; [reflexivity | | discriminate].
    intros _. exists i. split; assumption.
Qed.

Lemma local_missing_verb_rejected_witness :
  (call (App.api VNull) (emptyCache, verbOptions "counter" "delete")).1 =
  Normal (Rejected (TypeError "endpointInstances[endpoint][method] is not a function")).
Proof.
  eapply (local_missing_verb_rejected (App.api VNull) emptyCache (verbOptions "counter" "delete")).
  - apply rtc_refl.
  - reflexivity.
  - reflexivity.
Defined.

(** X27: [call] throws exactly on the keys under which a read of the
    registry finds nothing: those the registry does not have and that
    name no member of [Object.prototype].  For a key registered as a URL
    or as a handler class, and for the name of such a member, it
    returns a promise. *)
Theorem call_throws_iff_absent self c o :
  reachable self c →
  ((∃ e, (call self (c, o)).1 = Throw e) ↔
     endpoints self !! endpoint o = None ∧ protoMember (endpoint o) = false) ∧
  ((∃ p, (call self (c, o)).1 = Normal p) ↔
     is_Some (endpoints self !! endpoint o) ∨ protoMember (endpoint o) = true).
Proof.
  intros Hreach.
  pose proof (Resolver.reachable_cacheInv self c Hreach) as Hinv.
  destruct (endpoints self !! endpoint o) as [[url|cls]|] eqn:Hd.
  - rewrite (call_remote _ _ _ _ Hd). cbn [fst].
    split; split; try (intros [? ?]; discriminate); eauto.
  - destruct (protoMember (endpoint o)) eqn:Hproto.
    + rewrite (call_inherited _ _ _ _ Hinv Hd Hproto). cbn [fst].
      split; split; try (intros [? ?]; discriminate); eauto.
    + destruct (Resolver.call_local _ _ _ _ Hinv Hd Hproto) as (i & c' & -> & _).
      cbn [fst]. split; split; try (intros [? ?]; discriminate); eauto.
  - rewrite (Resolver.call_absent _ _ _ Hinv Hd).
    destruct (protoMember (endpoint o)); cbn [fst].
    + split; split; try (intros [? ?]; discriminate); eauto.
    + split; split; eauto.
      * intros [p Hp]. discriminate Hp.
      * intros [[d Hd']|Hp]; discriminate.
Qed.

Lemma call_throws_iff_absent_witness :
  ∃ p, (call (App.api VNull) (emptyCache, App.options "toString")).1 = Normal p.
Proof.
  apply (call_throws_iff_absent (App.api VNull) emptyCache (App.options "toString")).
  - apply rtc_refl.
  - right. reflexivity.
Defined.

End Outcomes.
